(** * Charged particles in electric, magnetic and gravitational fields

    A shallow embedding of [main.py]: the acceleration law [a], the class
    [Particle] with its two integrators [updateEuler] and [updateRK4], the
    plotting functions [set_axes_equal] and [plotResults], and the driver
    [main].

    Modelling decisions.
    - Scalars.  The script computes with IEEE 754 doubles.  The arithmetic it
      uses is collected in the classes [Scalar] and [Ordered]; the
      definitions below are written once, over any instance, with every
      operation applied to its operands in the order of the source.  The
      instance the program runs is [B64.scalar]: binary64 with
      round-to-nearest-even, as specified by the Standard Library's
      [SpecFloat].
    - Numbers.  Charge, mass, [t] and [dt] are doubles held either as a Python
      float or as a NumPy float64 scalar ([Number]).  The two behave alike
      except in [/]: between Python floats a zero divisor raises
      ZeroDivisionError, with a NumPy float64 on either side the quotient is
      the IEEE one, an infinity or NaN.  A Python int that a double holds
      exactly, such as the script's [t = 2], acts as that double in every
      operation modelled.
    - Arrays.  numpy arrays of shape (3,) are records [Vec3]; an array of
      shape (n,3) is a [History], of dtype int64 (as the script's position
      arrays are) or float64.  An int64 row enters arithmetic with doubles
      only, where numpy converts it to float64 ([astype]); [np.append] with a
      float64 row converts the whole array and builds a new one.
      [rs[-1]] raises IndexError on an empty history.
    - Fields.  [E], [B] and [g] are parameters: functions from the row they are
      given, seen as float64, to a float64 row.  The integer zeros the script's
      [E] and [g] return are converted where they meet a float64 array, which
      they do at once since the script's [B] returns float64.
    - Objects.  Particle objects are mutated by rebinding their attributes and
      live in a heap addressed by position, so that a list of particles may
      mention the same object more than once.
    - matplotlib is not part of the script.  What its calls answer is the
      parameter [Pyplot]: an axes object is a value, each call returns the
      axes it leaves or raises, and the answer is a function of the calls
      made. *)

From Stdlib Require Import ZArith List Bool String Lia.
From Stdlib Require Import Floats.SpecFloat.
From stdpp Require Import base option list.

Local Open Scope Z_scope.

(** ** Exceptions and results *)

(** The Python exceptions the modelled code can raise.  [NoSuchObject] is
    model-only: an address outside the heap (Python references never dangle). *)
Inductive Error :=
  | ZeroDivisionError
  | IndexError
  | OverflowError
  | ValueError
  | NoSuchObject.

Inductive res (A : Type) :=
  | Ok (x : A)
  | Raise (e : Error).
Arguments Ok {A} x.
Arguments Raise {A} e.

Global Instance res_ret : MRet res := fun _ x => Ok x.
Global Instance res_bind : MBind res := fun _ _ f r =>
  match r with
  | Ok x => f x
  | Raise e => Raise e
  end.

(** ** Scalar arithmetic *)

Class Scalar (F : Type) := {
  fadd : F -> F -> F;
  fsub : F -> F -> F;
  fmul : F -> F -> F;
  fdiv : F -> F -> F;          (* IEEE division *)
  fofZ : Z -> F;               (* an integer where a double is expected *)
  fis_zero : F -> bool;        (* [x == 0] *)
  fint : F -> res Z;           (* [int(x)]: truncation toward zero *)
}.

(** [abs(x)] and [x > y], which only [set_axes_equal] needs. *)
Class Ordered (F : Type) := {
  fabs : F -> F;
  fgtb : F -> F -> bool;
}.

(** *** Python floats and NumPy scalars *)

Inductive Number (F : Type) :=
  | PyFloat (x : F)
  | NpFloat64 (x : F).
Arguments PyFloat {F} x.
Arguments NpFloat64 {F} x.

Definition value {F : Type} (n : Number F) : F :=
  match n with
  | PyFloat x => x
  | NpFloat64 x => x
  end.

Definition is_python {F : Type} (n : Number F) : bool :=
  match n with
  | PyFloat _ => true
  | NpFloat64 _ => false
  end.

(** [x / y].  Between two Python floats a zero divisor raises
    ZeroDivisionError.  With a NumPy float64 on either side the division is
    NumPy's: it warns on a zero divisor and returns the IEEE quotient, a
    NumPy float64. *)
Definition truediv {F : Type} `{Scalar F} (x y : Number F) : res (Number F) :=
  match x, y with
  | PyFloat x', PyFloat y' =>
      if fis_zero y' then Raise ZeroDivisionError else Ok (PyFloat (fdiv x' y'))
  | _, _ => Ok (NpFloat64 (fdiv (value x) (value y)))
  end.

(** *** binary64 *)

Module B64.
Definition prec : Z := 53.
Definition emax : Z := 1024.

Definition of_Z (z : Z) : spec_float := binary_normalize prec emax z 0 false.

Definition is_zero (x : spec_float) : bool :=
  match x with
  | S754_zero _ => true
  | _ => false
  end.

(** Neither an infinity nor NaN. *)
Definition finite (x : spec_float) : bool :=
  match x with
  | S754_zero _ | S754_finite _ _ _ => true
  | _ => false
  end.

(** A double proper: its mantissa has at most 53 bits and sits at the
    exponent that goes with it, no larger than the largest.  Every value
    a float holds is one. *)
Definition valid (x : spec_float) : bool := valid_binary prec emax x.

(** The integer [(-1)^s * m * 2^e] rounded toward zero. *)
Definition trunc_finite (s : bool) (m : positive) (e : Z) : Z :=
  cond_Zopp s (Z.shiftl (Zpos m) e).

(** [int(x)]: OverflowError on an infinity, ValueError on NaN. *)
Definition to_int (x : spec_float) : res Z :=
  match x with
  | S754_zero _ => Ok 0
  | S754_infinity _ => Raise OverflowError
  | S754_nan => Raise ValueError
  | S754_finite s m e => Ok (trunc_finite s m e)
  end.

(** [math.floor(x)], for comparison with [to_int]. *)
Definition floor (x : spec_float) : res Z :=
  match x with
  | S754_zero _ => Ok 0
  | S754_infinity _ => Raise OverflowError
  | S754_nan => Raise ValueError
  | S754_finite s m e => Ok (Z.shiftl (cond_Zopp s (Zpos m)) e)
  end.

Global Instance scalar : Scalar spec_float := {|
  fadd := SFadd prec emax;
  fsub := SFsub prec emax;
  fmul := SFmul prec emax;
  fdiv := SFdiv prec emax;
  fofZ := of_Z;
  fis_zero := is_zero;
  fint := to_int;
|}.

Global Instance ordered : Ordered spec_float := {|
  fabs := SFabs;
  fgtb := fun x y => SFltb y x;
|}.
End B64.

(** ** Vectors: numpy arrays of shape (3,) *)

Record Vec3 (F : Type) := mkVec3 { vx : F; vy : F; vz : F }.
Arguments mkVec3 {F} vx vy vz.
Arguments vx {F} v.
Arguments vy {F} v.
Arguments vz {F} v.

Section Vectors.
Context {F : Type} `{Scalar F}.

(** [u + v] *)
Definition vadd (u v : Vec3 F) : Vec3 F :=
  mkVec3 (fadd (vx u) (vx v)) (fadd (vy u) (vy v)) (fadd (vz u) (vz v)).

(** [s * v], the scalar on the left *)
Definition smulv (s : F) (v : Vec3 F) : Vec3 F :=
  mkVec3 (fmul s (vx v)) (fmul s (vy v)) (fmul s (vz v)).

(** [v * s], the scalar on the right *)
Definition vmuls (v : Vec3 F) (s : F) : Vec3 F :=
  mkVec3 (fmul (vx v) s) (fmul (vy v) s) (fmul (vz v) s).

(** [v / s] *)
Definition vdivs (v : Vec3 F) (s : F) : Vec3 F :=
  mkVec3 (fdiv (vx v) s) (fdiv (vy v) s) (fdiv (vz v) s).

(** [np.cross(u, v)] on two arrays of shape (3,):
    [cp0 = a1*b2 - a2*b1; cp1 = a2*b0 - a0*b2; cp2 = a0*b1 - a1*b0]. *)
Definition cross (u v : Vec3 F) : Vec3 F :=
  mkVec3 (fsub (fmul (vy u) (vz v)) (fmul (vz u) (vy v)))
         (fsub (fmul (vz u) (vx v)) (fmul (vx u) (vz v)))
         (fsub (fmul (vx u) (vy v)) (fmul (vy u) (vx v))).

(** The fields as the script configures them. *)
Definition E_src (r : Vec3 F) : Vec3 F := mkVec3 (fofZ 0) (fofZ 0) (fofZ 0).
Definition B_src (r : Vec3 F) : Vec3 F :=
  mkVec3 (fofZ 0) (fdiv (fofZ 1) (fofZ (10 ^ 10))) (fofZ 0).   (* 1e-10 *)
Definition g_src (r : Vec3 F) : Vec3 F := mkVec3 (fofZ 0) (fofZ 0) (fofZ 0).
End Vectors.

(** ** Histories: numpy arrays of shape (n,3) *)

Inductive History (F : Type) :=
  | Int64 (h : list (Vec3 Z))
  | Float64 (h : list (Vec3 F)).
Arguments Int64 {F} h.
Arguments Float64 {F} h.

(** One row of a history, as it is stored. *)
Inductive Row (F : Type) :=
  | IntRow (r : Vec3 Z)
  | FloatRow (r : Vec3 F).
Arguments IntRow {F} r.
Arguments FloatRow {F} r.

Section Arrays.
Context {F : Type} `{Scalar F}.

(** An int64 row where float64 is needed: each entry converted. *)
Definition astype (r : Vec3 Z) : Vec3 F :=
  mkVec3 (fofZ (vx r)) (fofZ (vy r)) (fofZ (vz r)).

(** The rows of a history as float64, the way arithmetic with doubles and
    [np.append] see them. *)
Definition rows (h : History F) : list (Vec3 F) :=
  match h with
  | Int64 l => astype <$> l
  | Float64 l => l
  end.

(** The rows of a history as they are stored. *)
Definition stored (h : History F) : list (Row F) :=
  match h with
  | Int64 l => IntRow <$> l
  | Float64 l => FloatRow <$> l
  end.

(** [np.append(h, np.array([row]), axis=0)] with a float64 [row]: a new
    float64 array. *)
Definition np_append (h : History F) (row : Vec3 F) : History F :=
  Float64 (rows h ++ [row]).

(** [h[-1]], where it meets doubles *)
Definition last_row (h : History F) : res (Vec3 F) :=
  match last (rows h) with
  | Some x => Ok x
  | None => Raise IndexError
  end.

(** [xs[0], ys[0], zs[0]] and [xs[-1], ys[-1], zs[-1]] on the columns
    [xs, ys, zs] of [h]: IndexError when [h] has no row. *)
Definition first_point (h : History F) : res (Row F) :=
  match head (stored h) with
  | Some x => Ok x
  | None => Raise IndexError
  end.

Definition last_point (h : History F) : res (Row F) :=
  match last (stored h) with
  | Some x => Ok x
  | None => Raise IndexError
  end.
End Arrays.

(** ** Particles *)

Record Particle (F : Type) := mkParticle {
  q : Number F;
  m : Number F;
  rs : History F;
  vs : History F;
}.
Arguments mkParticle {F} q m rs vs.
Arguments q {F} p.
Arguments m {F} p.
Arguments rs {F} p.
Arguments vs {F} p.

Inductive Integrator := Euler | RK4.

Section Physics.
Context {F : Type} `{Scalar F}.
(** The three module-level field functions. *)
Variables E B g : Vec3 F -> Vec3 F.

(** [def a(qByM, r, v)] *)
Definition a (qByM : F) (r v : Vec3 F) : Vec3 F :=
  vadd (smulv qByM (vadd (E r) (cross v (B r)))) (g r).

(** [Particle.__init__]: stores its four arguments, checks nothing. *)
Definition Particle_init (q m : Number F) (rs vs : History F) : res (Particle F) :=
  Ok (mkParticle q m rs vs).

(** [Particle.updateEuler]; the result is the object after the call.  [dt]
    enters products only, where a Python float and a NumPy float64 give the
    same doubles. *)
Definition updateEuler (self : Particle F) (dt : F) : res (Particle F) :=
  ri ← last_row (rs self);
  vi ← last_row (vs self);
  qByM ← truediv (q self) (m self);
  let vf := vadd vi (vmuls (a (value qByM) ri vi) dt) in
  let vs' := np_append (vs self) vf in
  let rf := vadd ri (vmuls vi dt) in
  let rf := vadd ri (vmuls (vdivs (vadd vi vf) (fofZ 2)) dt) in
  let rs' := np_append (rs self) rf in
  Ok (mkParticle (q self) (m self) rs' vs').

(** [Particle.updateRK4] *)
Definition updateRK4 (self : Particle F) (dt : F) : res (Particle F) :=
  ri ← last_row (rs self);
  vi ← last_row (vs self);
  qByM ← truediv (q self) (m self);
  let k1v := a (value qByM) ri vi in
  let k1r := vi in
  let k2v := a (value qByM) (vadd ri (vmuls k1r (fdiv dt (fofZ 2)))) k1r in
  let k2r := vadd vi (vmuls k1v (fdiv dt (fofZ 2))) in
  let k3v := a (value qByM) (vadd ri (vmuls k2r (fdiv dt (fofZ 2)))) k2r in
  let k3r := vadd vi (vmuls k2v (fdiv dt (fofZ 2))) in
  let k4v := a (value qByM) (vadd ri (vmuls k3r dt)) k3r in
  let k4r := vadd vi (vmuls k3v dt) in
  let vf := vadd vi (smulv (fdiv dt (fofZ 6))
              (vadd (vadd (vadd k1v (smulv (fofZ 2) k2v)) (smulv (fofZ 2) k3v)) k4v)) in
  let vs' := np_append (vs self) vf in
  let rf := vadd ri (smulv (fdiv dt (fofZ 6))
              (vadd (vadd (vadd k1r (smulv (fofZ 2) k2r)) (smulv (fofZ 2) k3r)) k4r)) in
  let rs' := np_append (rs self) rf in
  Ok (mkParticle (q self) (m self) rs' vs').

Definition update (k : Integrator) : Particle F -> F -> res (Particle F) :=
  match k with
  | Euler => updateEuler
  | RK4 => updateRK4
  end.

(** [n] consecutive calls of one integrator on one object. *)
Fixpoint steps (k : Integrator) (dt : F) (n : nat) (p : Particle F) : res (Particle F) :=
  match n with
  | O => Ok p
  | S n' => p' ← update k p dt; steps k dt n' p'
  end.
End Physics.

(** ** Plotting *)

Inductive Axis := Xaxis | Yaxis | Zaxis.

(** What matplotlib answers.  [Axes] is the state of the object
    [plt.axes(projection='3d')] returns; every call returns the axes as it
    leaves them, or raises. *)
Class Pyplot (F : Type) := {
  Axes : Type;
  (* [plt.axes(projection='3d')] *)
  plt_axes : res Axes;
  (* [ax.plot(xs, ys, zs, color)] or [ax.plot(xs, ys, zs, color, label=...)],
     [xs, ys, zs] being the three columns of the history handed over *)
  ax_plot : Axes -> History F -> string -> option string -> res Axes;
  (* [ax.scatter(x, y, z, color=...)] or the same with [label=...] *)
  ax_scatter : Axes -> Row F -> string -> option string -> res Axes;
  (* [ax.legend()] *)
  ax_legend : Axes -> res Axes;
  (* [ax.set_xlabel(s, fontsize=10)] and its two siblings *)
  ax_set_label : Axes -> Axis -> string -> res Axes;
  (* [ax.get_xlim3d()] and its two siblings *)
  ax_get_lim3d : Axes -> Axis -> res (F * F);
  (* [ax.set_xlim3d([lo, hi])] and its two siblings *)
  ax_set_lim3d : Axes -> Axis -> F * F -> res Axes;
  (* [plt.show()] *)
  plt_show : Axes -> res unit;
}.

Section Plotting.
Context {F : Type} {SF : Scalar F} {OF : Ordered F} {PF : Pyplot F}.

(** [abs(limits[1] - limits[0])] *)
Definition span (limits : F * F) : F :=
  fabs (fsub (snd limits) (fst limits)).

(** [np.mean(limits)] on a pair: the sum divided by the count. *)
Definition mean2 (limits : F * F) : F :=
  fdiv (fadd (fst limits) (snd limits)) (fofZ 2).

(** [max([x, y, z])]: a later element replaces the best so far only when
    it is greater. *)
Definition max3 (x y z : F) : F :=
  let best := x in
  let best := if fgtb y best then y else best in
  if fgtb z best then z else best.

(** [def set_axes_equal(ax)]; [0.5] is [1/2], which a double holds. *)
Definition set_axes_equal (ax : Axes) : res Axes :=
  x_limits ← ax_get_lim3d ax Xaxis;
  y_limits ← ax_get_lim3d ax Yaxis;
  z_limits ← ax_get_lim3d ax Zaxis;
  let x_range := span x_limits in
  let x_middle := mean2 x_limits in
  let y_range := span y_limits in
  let y_middle := mean2 y_limits in
  let z_range := span z_limits in
  let z_middle := mean2 z_limits in
  let plot_radius := fmul (fdiv (fofZ 1) (fofZ 2)) (max3 x_range y_range z_range) in
  ax ← ax_set_lim3d ax Xaxis (fsub x_middle plot_radius, fadd x_middle plot_radius);
  ax ← ax_set_lim3d ax Yaxis (fsub y_middle plot_radius, fadd y_middle plot_radius);
  ax_set_lim3d ax Zaxis (fsub z_middle plot_radius, fadd z_middle plot_radius).

(** The label the first particle's artists carry, and no other's. *)
Definition labelled (pNum : nat) (label : string) : option string :=
  if Nat.eqb pNum 0 then Some label else None.

(** The body of [for pNum, particle in enumerate(particles)]: the
    trajectory, then its start and its end. *)
Definition plot_particle (coords : History F) (pNum : nat) (ax : Axes) : res Axes :=
  ax ← ax_plot ax coords "black" (labelled pNum "trajectory");
  start ← first_point coords;
  ax ← ax_scatter ax start "green" (labelled pNum "start");
  stop ← last_point coords;
  ax_scatter ax stop "red" (labelled pNum "end").

Fixpoint plot_particles (h : list (Particle F)) (particles : list nat) (pNum : nat)
    (ax : Axes) : res Axes :=
  match particles with
  | [] => Ok ax
  | ref :: rest =>
      match h !! ref with
      | None => Raise NoSuchObject
      | Some particle =>
          ax ← plot_particle (rs particle) pNum ax;
          plot_particles h rest (S pNum) ax
      end
  end.

(** [def plotResults(particles, plotFields=False)], as [main] calls it: with
    [plotFields] left at [False], the branch that draws the fields is not
    entered. *)
Definition plotResults (h : list (Particle F)) (particles : list nat) : res unit :=
  ax ← plt_axes;
  ax ← plot_particles h particles 0 ax;
  ax ← ax_legend ax;
  ax ← ax_set_label ax Xaxis "$x$, (m)";
  ax ← ax_set_label ax Yaxis "$y$, (m)";
  ax ← ax_set_label ax Zaxis "$z$, (m)";
  ax ← set_axes_equal ax;
  plt_show ax.
End Plotting.

(** ** The driver *)

(** What [main] prints: at step [i] of [n], the percentage [100*i/n]. *)
Inductive Event := Progress (i n : Z).

(** The Particle objects, addressed by position, and the lines printed so far. *)
Record State (F : Type) := mkState {
  heap : list (Particle F);
  out : list Event;
}.
Arguments mkState {F} heap out.
Arguments heap {F} s.
Arguments out {F} s.

(** A statement either completes or raises, leaving the state it reached. *)
Inductive outcome (F : Type) :=
  | Done (s : State F)
  | Raised (e : Error) (s : State F).
Arguments Done {F} s.
Arguments Raised {F} e s.

Definition final {F} (o : outcome F) : State F :=
  match o with
  | Done s => s
  | Raised _ s => s
  end.

(** A call that only reads, made in state [s]. *)
Definition reading {F} (s : State F) (r : res unit) : outcome F :=
  match r with
  | Ok _ => Done s
  | Raise e => Raised e s
  end.

Section Driver.
Context {F : Type} {SF : Scalar F} {OF : Ordered F} {PF : Pyplot F}.
Variables E B g : Vec3 F -> Vec3 F.

(** [for x in l: body], left as soon as [body] raises. *)
Fixpoint for_each {A : Type} (body : A -> State F -> outcome F)
    (l : list A) (s : State F) : outcome F :=
  match l with
  | [] => Done s
  | x :: l' =>
      match body x s with
      | Done s' => for_each body l' s'
      | Raised e s' => Raised e s'
      end
  end.

(** A method call on the object at address [ref]. *)
Definition invoke (k : Integrator) (dt : F) (ref : nat) (s : State F) : outcome F :=
  match heap s !! ref with
  | None => Raised NoSuchObject s
  | Some p =>
      match update E B g k p dt with
      | Ok p' => Done (mkState (<[ref := p']> (heap s)) (out s))
      | Raise e => Raised e s
      end
  end.

(** [integrator=='RK4'], anything else selecting Euler. *)
Definition select (integrator : string) : Integrator :=
  if String.eqb integrator "RK4" then RK4 else Euler.

(** [if i%1000==0: print(...)] *)
Definition progress (i n : Z) (s : State F) : State F :=
  if Z.eqb (i mod 1000) 0 then mkState (heap s) (out s ++ [Progress i n]) else s.

(** [n = int(t/dt)] *)
Definition iterations (t dt : Number F) : res Z :=
  x ← truediv t dt; fint (value x).

(** The body of [for i in range(n)]: the progress line, then one call per
    entry of [particles], in order. *)
Definition timestep (k : Integrator) (dt : F) (particles : list nat) (n i : Z)
    (s : State F) : outcome F :=
  for_each (invoke k dt) particles (progress i n s).

(** [def main(particles, t, dt, integrator)] *)
Definition main (s : State F) (particles : list nat) (t dt : Number F)
    (integrator : string) : outcome F :=
  match iterations t dt with
  | Raise e => Raised e s
  | Ok n =>
      match for_each (timestep (select integrator) (value dt) particles n) (seqZ 0 n) s with
      | Done s' => reading s' (plotResults (heap s') particles)
      | Raised e s' => Raised e s'
      end
  end.
End Driver.

(** ** The integrators as the specification words them *)

Section Recurrences.
Context {F : Type} `{Scalar F}.
Variables E B g : Vec3 F -> Vec3 F.

(** The acceleration written out on the three coordinates, the cross
    product following the right-hand rule. *)
Definition acceleration (qOverM : F) (position velocity : Vec3 F) : Vec3 F :=
  let e := E position in
  let b := B position in
  let grav := g position in
  mkVec3
    (fadd (fmul qOverM (fadd (vx e)
       (fsub (fmul (vy velocity) (vz b)) (fmul (vz velocity) (vy b))))) (vx grav))
    (fadd (fmul qOverM (fadd (vy e)
       (fsub (fmul (vz velocity) (vx b)) (fmul (vx velocity) (vz b))))) (vy grav))
    (fadd (fmul qOverM (fadd (vz e)
       (fsub (fmul (vx velocity) (vy b)) (fmul (vy velocity) (vx b))))) (vz grav)).

(** One Euler step, returning [(r_{i+1}, v_{i+1})]. *)
Definition euler_next (qOverM dt : F) (r_i v_i : Vec3 F) : Vec3 F * Vec3 F :=
  let a_i := a E B g qOverM r_i v_i in
  let v_next := vadd v_i (vmuls a_i dt) in
  let r_next := vadd r_i (vmuls (vdivs (vadd v_i v_next) (fofZ 2)) dt) in
  (r_next, v_next).

(** The forward-Euler position the source computes and then overwrites. *)
Definition naive_position (dt : F) (r_i v_i : Vec3 F) : Vec3 F :=
  vadd r_i (vmuls v_i dt).

(** One RK4 step, returning [(r_{i+1}, v_{i+1})]; [dt/2] and [dt/6] are
    the half step and the weight, each formed before it multiplies. *)
Definition rk4_next (qOverM dt : F) (r_i v_i : Vec3 F) : Vec3 F * Vec3 F :=
  let half := fdiv dt (fofZ 2) in
  let sixth := fdiv dt (fofZ 6) in
  let two := fofZ 2 in
  let k1v := a E B g qOverM r_i v_i in
  let k1r := v_i in
  let k2v := a E B g qOverM (vadd r_i (vmuls k1r half)) k1r in
  let k2r := vadd v_i (vmuls k1v half) in
  let k3v := a E B g qOverM (vadd r_i (vmuls k2r half)) k2r in
  let k3r := vadd v_i (vmuls k2v half) in
  let k4v := a E B g qOverM (vadd r_i (vmuls k3r dt)) k3r in
  let k4r := vadd v_i (vmuls k3v dt) in
  let v_next :=
    vadd v_i (smulv sixth (vadd (vadd (vadd k1v (smulv two k2v)) (smulv two k3v)) k4v)) in
  let r_next :=
    vadd r_i (smulv sixth (vadd (vadd (vadd k1r (smulv two k2r)) (smulv two k3r)) k4r)) in
  (r_next, v_next).

Definition next (k : Integrator) : F -> F -> Vec3 F -> Vec3 F -> Vec3 F * Vec3 F :=
  match k with
  | Euler => euler_next
  | RK4 => rk4_next
  end.

(** A particle on which a step cannot raise: charge/mass raises nothing and
    neither history is empty. *)
Definition steppable (p : Particle F) : Prop :=
  (exists qByM, truediv (q p) (m p) = Ok qByM) /\ rows (rs p) <> [] /\ rows (vs p) <> [].
End Recurrences.

(** ** The driver as the specification words it *)

Section Specified.
Context {PF : Pyplot spec_float}.
Variables E B g : Vec3 spec_float -> Vec3 spec_float.

(** The step count, [floor(totalTime / dt)]. *)
Definition floor_iterations (totalTime dt : Number spec_float) : res Z :=
  x ← truediv totalTime dt; B64.floor (value x).

(** [run(particles, totalTime, dt, integratorKind)]: for each of the n steps,
    for each particle in collection order, the selected integrator once;
    after all steps the collection is handed to Visualization.  Progress
    notifications, a side channel, are left out. *)
Definition run (s : State spec_float) (particles : list nat)
    (totalTime dt : Number spec_float) (integratorKind : Integrator) : outcome spec_float :=
  match floor_iterations totalTime dt with
  | Raise e => Raised e s
  | Ok n =>
      match for_each (fun _ => for_each (invoke E B g integratorKind (value dt)) particles)
              (seqZ 0 n) s with
      | Done s' => reading s' (plotResults (heap s') particles)
      | Raised e s' => Raised e s'
      end
  end.
End Specified.

(** ** Notions used in the statements *)

Section Statements.
Context {F : Type} `{Scalar F}.

Definition vzero : Vec3 F := mkVec3 (fofZ 0) (fofZ 0) (fofZ 0).

(** A field that vanishes everywhere. *)
Definition vanishes (field : Vec3 F -> Vec3 F) : Prop :=
  forall r, field r = vzero.

(** A field that takes the value [c] everywhere. *)
Definition uniform (field : Vec3 F -> Vec3 F) (c : Vec3 F) : Prop :=
  forall r, field r = c.

(** [r_0 + v_0 * n * dt] *)
Definition linear_position (r_0 v_0 : Vec3 F) (n : Z) (dt : F) : Vec3 F :=
  vadd r_0 (vmuls (vmuls v_0 (fofZ n)) dt).

(** Two particles configured alike. *)
Definition same_particle (p1 p2 : Particle F) : Prop :=
  q p1 = q p2 /\ m p1 = m p2 /\ rs p1 = rs p2 /\ vs p1 = vs p2.

Definition same_histories (p1 p2 : Particle F) : Prop :=
  rs p1 = rs p2 /\ vs p1 = vs p2.

(** Two runs end the same way: both complete, or both raise the same
    exception. *)
Definition same_ending (o1 o2 : outcome F) : Prop :=
  match o1, o2 with
  | Done _, Done _ => True
  | Raised e1 _, Raised e2 _ => e1 = e2
  | _, _ => False
  end.

(** Two outcomes that agree on everything but the lines printed. *)
Definition same_heap (o1 o2 : outcome F) : Prop :=
  same_ending o1 o2 /\ heap (final o1) = heap (final o2).

(** Every address in [l] holds a particle on which a step cannot raise. *)
Definition all_steppable (h : list (Particle F)) (l : list nat) : Prop :=
  forall ref, In ref l -> exists p, h !! ref = Some p /\ steppable p.

(** A particle's history after a run extends its history before: same
    charge and mass, the rows it had, as float64, still at their indices,
    and as many rows appended to one history as to the other. *)
Definition extends (p p' : Particle F) : Prop :=
  q p' = q p /\ m p' = m p /\
  exists tail_r tail_v,
    rows (rs p') = rows (rs p) ++ tail_r /\ rows (vs p') = rows (vs p) ++ tail_v /\
    length tail_r = length tail_v.

(** What a step leaves of a history [h] in [h'].  Seen as float64, every
    row is where it was; a float64 array keeps its rows bit for bit; an
    int64 array is left as it is, or replaced by a float64 array that holds
    its rows converted. *)
Definition keeps_rows (h h' : History F) : Prop :=
  (forall i x, rows h !! i = Some x -> rows h' !! i = Some x) /\
  match h with
  | Float64 l =>
      exists l', h' = Float64 l' /\ forall i x, l !! i = Some x -> l' !! i = Some x
  | Int64 l =>
      h' = Int64 l \/
      exists l', h' = Float64 l' /\
        forall i z, l !! i = Some z -> l' !! i = Some (astype z)
  end.

(** The lines a run of [n] passes prints: one for each pass whose number
    is a multiple of 1000. *)
Definition progress_lines (n : Z) : list Event :=
  (fun k => Progress (1000 * k) n) <$> seqZ 0 ((n + 999) / 1000).
End Statements.

(** *** Doubles that compare equal *)

(** [x == y] for two doubles that are not NaN: the same double, or two zeros
    of either sign. *)
Definition same_number (x y : spec_float) : Prop :=
  x = y \/ (B64.is_zero x = true /\ B64.is_zero y = true).

Definition same_numbers (u v : Vec3 spec_float) : Prop :=
  same_number (vx u) (vx v) /\ same_number (vy u) (vy v) /\ same_number (vz u) (vz v).

Definition finite_vec (v : Vec3 spec_float) : bool :=
  B64.finite (vx v) && B64.finite (vy v) && B64.finite (vz v).

(** A vector of zeros, of either sign. *)
Definition zeros (v : Vec3 spec_float) : Prop :=
  B64.is_zero (vx v) = true /\ B64.is_zero (vy v) = true /\ B64.is_zero (vz v) = true.

(** A step that is finite, with its half and its sixth, which [updateRK4]
    forms. *)
Definition finite_step (dt : spec_float) : bool :=
  B64.finite dt && B64.finite (fdiv dt (fofZ 2)) && B64.finite (fdiv dt (fofZ 6)).

(** ** Sample data, in binary64 *)

Module Sample.
Definition num (z : Z) : spec_float := fofZ z.
Definition vec (x y z : Z) : Vec3 spec_float := mkVec3 (num x) (num y) (num z).
Definition py (z : Z) : Number spec_float := PyFloat (num z).
Definition np (z : Z) : Number spec_float := NpFloat64 (num z).

(** No field at all. *)
Definition none (r : Vec3 spec_float) : Vec3 spec_float := vec 0 0 0.
(** The electric field the script keeps in a comment, [(1, 0, 0)]. *)
Definition E_x (r : Vec3 spec_float) : Vec3 spec_float := vec 1 0 0.

Definition tenth : spec_float := fdiv (num 1) (num 10).   (* 0.1 *)

(** Unit charge and mass, at the origin. *)
Definition at_rest : Particle spec_float :=
  mkParticle (py 1) (py 1) (Float64 [vec 0 0 0]) (Float64 [vec 0 0 0]).
Definition moving : Particle spec_float :=
  mkParticle (py 1) (py 1) (Float64 [vec 0 0 0]) (Float64 [vec 1 0 0]).
(** The same with an int64 position array, as the script builds it. *)
Definition scripted : Particle spec_float :=
  mkParticle (py 1) (py 1) (Int64 [mkVec3 0 0 0]) (Float64 [vec 1 0 0]).
(** Mass zero, as a Python float and as a NumPy float64. *)
Definition massless : Particle spec_float :=
  mkParticle (py 1) (py 0) (Float64 [vec 0 0 0]) (Float64 [vec 1 0 0]).
Definition massless_np : Particle spec_float :=
  mkParticle (py 1) (np 0) (Float64 [vec 0 0 0]) (Float64 [vec 1 0 0]).
(** The same charge and mass as [moving], the same last rows, another past. *)
Definition moving_later : Particle spec_float :=
  mkParticle (py 1) (py 1) (Float64 [vec 5 5 5; vec 0 0 0]) (Float64 [vec 7 7 7; vec 1 0 0]).
(** No history yet; charge and mass both doubled; another starting point. *)
Definition unborn : Particle spec_float := mkParticle (py 1) (py 0) (Float64 []) (Float64 []).
Definition doubled : Particle spec_float :=
  mkParticle (py 2) (py 2) (Float64 [vec 0 0 0]) (Float64 [vec 1 0 0]).
Definition elsewhere : Particle spec_float :=
  mkParticle (py 1) (py 1) (Float64 [vec 3 4 5]) (Float64 [vec 1 0 0]).
(** The largest double for charge, the smallest for mass. *)
Definition largest : spec_float := S754_finite false 9007199254740991 971.
Definition smallest : spec_float := S754_finite false 1 (-1074).
Definition overcharged : Particle spec_float :=
  mkParticle (PyFloat largest) (PyFloat smallest) (Float64 [vec 0 0 0]) (Float64 [vec 1 0 0]).
(** An infinite velocity. *)
Definition runaway : Particle spec_float :=
  mkParticle (py 1) (py 1) (Float64 [vec 0 0 0])
    (Float64 [mkVec3 (S754_infinity false) (num 0) (num 0)]).
(** An int64 position beyond 2^53. *)
Definition far : Particle spec_float :=
  mkParticle (py 1) (py 1) (Int64 [mkVec3 9007199254740993 0 0]) (Float64 [vec 1 0 0]).

(** A backend that draws nothing and never raises; the view limits it
    reports are (0, 1) on every axis. *)
Definition quiet : Pyplot spec_float := {|
  Axes := unit;
  plt_axes := Ok tt;
  ax_plot := fun ax _ _ _ => Ok ax;
  ax_scatter := fun ax _ _ _ => Ok ax;
  ax_legend := fun ax => Ok ax;
  ax_set_label := fun ax _ _ => Ok ax;
  ax_get_lim3d := fun _ _ => Ok (num 0, num 1);
  ax_set_lim3d := fun ax _ _ => Ok ax;
  plt_show := fun _ => Ok tt;
|}.
End Sample.

(** * Properties *)

Section StepFacts.
Context {F : Type} {SF : Scalar F}.
Variables E B g : Vec3 F -> Vec3 F.

(** *** Histories *)

Lemma rows_np_append (h : History F) (x : Vec3 F) : rows (np_append h x) = rows h ++ [x].
Proof. reflexivity. Qed.

Lemma last_row_np_append (h : History F) (x : Vec3 F) : last_row (np_append h x) = Ok x.
Proof. unfold last_row. now rewrite rows_np_append, last_snoc. Qed.

Lemma last_np_append (h : History F) (x : Vec3 F) : last (rows (np_append h x)) = Some x.
Proof. rewrite rows_np_append. apply last_snoc. Qed.

Lemma last_row_Some (h : History F) (x : Vec3 F) :
  last (rows h) = Some x -> last_row h = Ok x.
Proof. unfold last_row. now intros ->. Qed.

Lemma last_row_nonempty (h : History F) :
  rows h <> [] -> exists x, last (rows h) = Some x /\ last_row h = Ok x.
Proof.
  intros Hne. destruct (last (rows h)) as [x|] eqn:Hl.
  - exists x. split; [reflexivity|]. now apply last_row_Some.
  - apply last_None in Hl. contradiction.
Qed.

Lemma np_append_nonempty (h : History F) (x : Vec3 F) : rows (np_append h x) <> [].
Proof.
  rewrite rows_np_append. intros Habs. apply app_eq_nil in Habs.
  destruct Habs; discriminate.
Qed.

(** *** Division *)

Lemma truediv_nonzero (x y : Number F) :
  fis_zero (value y) = false ->
  exists k, truediv x y = Ok k /\ value k = fdiv (value x) (value y).
Proof.
  intros Hy. destruct x as [x|x], y as [y|y]; cbn in *; try (eexists; split; reflexivity).
  rewrite Hy. eexists. split; reflexivity.
Qed.

Lemma truediv_value (x y k : Number F) :
  truediv x y = Ok k -> value k = fdiv (value x) (value y).
Proof.
  destruct x as [x|x], y as [y|y]; cbn; try (now intros [= <-]).
  destruct (fis_zero y); [discriminate|]. now intros [= <-].
Qed.

Lemma truediv_python_zero (x y : Number F) :
  is_python x = true -> is_python y = true -> fis_zero (value y) = true ->
  truediv x y = Raise ZeroDivisionError.
Proof.
  destruct x as [x|x], y as [y|y]; cbn; try discriminate.
  now intros _ _ ->.
Qed.

Lemma truediv_numpy (x y : Number F) :
  is_python x && is_python y = false ->
  truediv x y = Ok (NpFloat64 (fdiv (value x) (value y))).
Proof. destruct x as [x|x], y as [y|y]; cbn; try discriminate; reflexivity. Qed.

(** *** One step *)

(** Every step has the same shape: read the two last rows, divide, append. *)
Lemma update_unfold (k : Integrator) (self : Particle F) (dt : F) :
  update E B g k self dt =
    (ri ← last_row (rs self);
     vi ← last_row (vs self);
     qByM ← truediv (q self) (m self);
     Ok (mkParticle (q self) (m self)
           (np_append (rs self) (fst (next E B g k (value qByM) dt ri vi)))
           (np_append (vs self) (snd (next E B g k (value qByM) dt ri vi))))).
Proof. destruct k; reflexivity. Qed.

Lemma update_divides (k : Integrator) (self : Particle F) (dt : F) (ri vi : Vec3 F)
    (qByM : Number F) :
  last (rows (rs self)) = Some ri -> last (rows (vs self)) = Some vi ->
  truediv (q self) (m self) = Ok qByM ->
  update E B g k self dt =
    Ok (mkParticle (q self) (m self)
          (np_append (rs self) (fst (next E B g k (value qByM) dt ri vi)))
          (np_append (vs self) (snd (next E B g k (value qByM) dt ri vi)))).
Proof.
  intros Hr Hv Hq. rewrite update_unfold.
  rewrite (last_row_Some _ _ Hr), (last_row_Some _ _ Hv), Hq. reflexivity.
Qed.

Lemma update_Ok (k : Integrator) (self : Particle F) (dt : F) (ri vi : Vec3 F) :
  last (rows (rs self)) = Some ri -> last (rows (vs self)) = Some vi ->
  fis_zero (value (m self)) = false ->
  update E B g k self dt =
    Ok (mkParticle (q self) (m self)
          (np_append (rs self)
             (fst (next E B g k (fdiv (value (q self)) (value (m self))) dt ri vi)))
          (np_append (vs self)
             (snd (next E B g k (fdiv (value (q self)) (value (m self))) dt ri vi)))).
Proof.
  intros Hr Hv Hm.
  destruct (truediv_nonzero (q self) (m self) Hm) as (qByM & Hq & <-).
  now apply update_divides.
Qed.

Lemma update_inv (k : Integrator) (self p' : Particle F) (dt : F) :
  update E B g k self dt = Ok p' ->
  exists ri vi qByM,
    last (rows (rs self)) = Some ri /\ last (rows (vs self)) = Some vi /\
    truediv (q self) (m self) = Ok qByM /\
    p' = mkParticle (q self) (m self)
           (np_append (rs self) (fst (next E B g k (value qByM) dt ri vi)))
           (np_append (vs self) (snd (next E B g k (value qByM) dt ri vi))).
Proof.
  rewrite update_unfold. unfold last_row.
  destruct (last (rows (rs self))) as [ri|]; [|discriminate].
  destruct (last (rows (vs self))) as [vi|]; [|discriminate].
  destruct (truediv (q self) (m self)) as [qByM|e]; [|discriminate].
  intros [= <-]. exists ri, vi, qByM. repeat split.
Qed.

(** A zero mass held as a Python float, under a charge that is one too. *)
Lemma update_zero_mass (k : Integrator) (self : Particle F) (dt : F) :
  is_python (q self) = true -> is_python (m self) = true ->
  fis_zero (value (m self)) = true ->
  exists e, update E B g k self dt = Raise e /\
    (rows (rs self) <> [] -> rows (vs self) <> [] -> e = ZeroDivisionError).
Proof.
  intros Hpq Hpm Hm. rewrite update_unfold. unfold last_row.
  rewrite (truediv_python_zero _ _ Hpq Hpm Hm).
  destruct (last (rows (rs self))) as [ri|] eqn:Hr.
  - destruct (last (rows (vs self))) as [vi|] eqn:Hv.
    + exists ZeroDivisionError. split; reflexivity.
    + exists IndexError. split; [reflexivity|].
      apply last_None in Hv. intros _ Hne. contradiction.
  - exists IndexError. split; [reflexivity|].
    apply last_None in Hr. intros Hne. contradiction.
Qed.

Lemma steppable_update (k : Integrator) (p : Particle F) (dt : F) :
  steppable p -> exists p', update E B g k p dt = Ok p' /\ steppable p'.
Proof.
  intros ((qByM & Hq) & Hr & Hv).
  destruct (last_row_nonempty _ Hr) as (ri & Hri & _).
  destruct (last_row_nonempty _ Hv) as (vi & Hvi & _).
  eexists. split; [apply (update_divides k p dt ri vi qByM Hri Hvi Hq)|].
  split; [exists qByM; exact Hq|]. split; apply np_append_nonempty.
Qed.

Lemma nonzero_mass_steppable (p : Particle F) :
  fis_zero (value (m p)) = false -> rows (rs p) <> [] -> rows (vs p) <> [] ->
  steppable p.
Proof.
  intros Hm Hr Hv. split; [|split; assumption].
  destruct (truediv_nonzero (q p) (m p) Hm) as (k & Hk & _). eauto.
Qed.

Lemma steps_add (k : Integrator) (dt : F) (n1 n2 : nat) (p : Particle F) :
  steps E B g k dt (n1 + n2) p = (p' ← steps E B g k dt n1 p; steps E B g k dt n2 p').
Proof.
  revert p. induction n1 as [|n1 IH]; intros p; [reflexivity|].
  cbn [Nat.add steps]. destruct (update E B g k p dt) as [p1|e]; [|reflexivity].
  apply IH.
Qed.

Lemma update_grows (k : Integrator) (p p' : Particle F) (dt : F) :
  update E B g k p dt = Ok p' ->
  q p' = q p /\ m p' = m p /\
  exists r v, rs p' = np_append (rs p) r /\ vs p' = np_append (vs p) v.
Proof.
  intros Hu. apply update_inv in Hu as (ri & vi & qByM & _ & _ & _ & ->).
  cbn. repeat split. eauto.
Qed.

Lemma steps_grow (k : Integrator) (dt : F) (n : nat) (p : Particle F) :
  steppable p ->
  exists p', steps E B g k dt n p = Ok p' /\ steppable p' /\
    length (rows (rs p')) = (length (rows (rs p)) + n)%nat /\
    length (rows (vs p')) = (length (rows (vs p)) + n)%nat.
Proof.
  revert p. induction n as [|n IH]; intros p Hp.
  - exists p. cbn. rewrite !Nat.add_0_r. auto.
  - destruct (steppable_update k p dt Hp) as (p1 & Hu & Hp1).
    destruct (IH p1 Hp1) as (p' & Hs & Hp' & Hlr & Hlv).
    exists p'. cbn [steps]. rewrite Hu. cbn. split; [exact Hs|]. split; [exact Hp'|].
    apply update_grows in Hu as (_ & _ & r & v & Hr & Hv).
    rewrite Hlr, Hlv, Hr, Hv, !rows_np_append, !length_app. cbn. lia.
Qed.

(** *** The claims about one particle *)

(** C1. For every charge-to-mass ratio, position and velocity, [a] returns
    qOverM * (E(r) + v x B(r)) + g(r), coordinate by coordinate, the cross
    product being the right-hand-rule one.  [a] is a function of its three
    arguments and of the field functions only: it reads and writes no
    state. *)
Theorem a_is_lorentz_plus_gravity (qOverM : F) (r v : Vec3 F) :
  a E B g qOverM r v = acceleration E B g qOverM r v.
Proof. reflexivity. Qed.

(** C2. On a particle of nonzero mass whose histories end in r_i and v_i,
    an Euler step appends v_{i+1} = v_i + a_i*dt, where
    a_i = a(charge/mass, r_i, v_i), and the trapezoidal position
    r_{i+1} = r_i + ((v_i + v_{i+1})/2)*dt; wherever that position differs
    from the forward-Euler one r_i + v_i*dt, the forward-Euler one is not
    what the step appends. *)
Theorem updateEuler_appends_trapezoid (self : Particle F) (dt : F) (r_i v_i : Vec3 F) :
  fis_zero (value (m self)) = false ->
  last (rows (rs self)) = Some r_i ->
  last (rows (vs self)) = Some v_i ->
  let a_i := a E B g (fdiv (value (q self)) (value (m self))) r_i v_i in
  let v_next := vadd v_i (vmuls a_i dt) in
  let r_next := vadd r_i (vmuls (vdivs (vadd v_i v_next) (fofZ 2)) dt) in
  updateEuler E B g self dt =
    Ok (mkParticle (q self) (m self)
          (np_append (rs self) r_next) (np_append (vs self) v_next)) /\
  (r_next <> naive_position dt r_i v_i ->
   updateEuler E B g self dt <>
     Ok (mkParticle (q self) (m self)
           (np_append (rs self) (naive_position dt r_i v_i))
           (np_append (vs self) v_next))).
Proof.
  intros Hm Hr Hv a_i v_next r_next.
  assert (Hstep : updateEuler E B g self dt =
    Ok (mkParticle (q self) (m self)
          (np_append (rs self) r_next) (np_append (vs self) v_next))).
  { exact (update_Ok Euler self dt r_i v_i Hr Hv Hm). }
  split; [exact Hstep|].
  intros Hne Habs. rewrite Hstep in Habs. apply Hne.
  assert (Hl : rows (rs self) ++ [r_next] = rows (rs self) ++ [naive_position dt r_i v_i]).
  { unfold np_append in Habs. congruence. }
  apply app_inv_head in Hl. congruence.
Qed.

(** C3. On a particle of nonzero mass whose histories end in r_i and v_i,
    an RK4 step computes the stages k1v = a(r_i, v_i), k1r = v_i;
    k2v = a(r_i + k1r*(dt/2), k1r), k2r = v_i + k1v*(dt/2);
    k3v = a(r_i + k2r*(dt/2), k2r), k3r = v_i + k2v*(dt/2);
    k4v = a(r_i + k3r*dt, k3r), k4r = v_i + k3v*dt, and appends
    v_{i+1} = v_i + (dt/6)*(k1v + 2 k2v + 2 k3v + k4v) and
    r_{i+1} = r_i + (dt/6)*(k1r + 2 k2r + 2 k3r + k4r).  The velocity handed
    to each stage's acceleration is the previous stage's k-r. *)
Theorem updateRK4_appends_stages (self : Particle F) (dt : F) (r_i v_i : Vec3 F) :
  fis_zero (value (m self)) = false ->
  last (rows (rs self)) = Some r_i ->
  last (rows (vs self)) = Some v_i ->
  let acc := a E B g (fdiv (value (q self)) (value (m self))) in
  let half := fdiv dt (fofZ 2) in
  let k1v := acc r_i v_i in
  let k1r := v_i in
  let k2v := acc (vadd r_i (vmuls k1r half)) k1r in
  let k2r := vadd v_i (vmuls k1v half) in
  let k3v := acc (vadd r_i (vmuls k2r half)) k2r in
  let k3r := vadd v_i (vmuls k2v half) in
  let k4v := acc (vadd r_i (vmuls k3r dt)) k3r in
  let k4r := vadd v_i (vmuls k3v dt) in
  let weighted k1 k2 k3 k4 :=
    smulv (fdiv dt (fofZ 6))
      (vadd (vadd (vadd k1 (smulv (fofZ 2) k2)) (smulv (fofZ 2) k3)) k4) in
  updateRK4 E B g self dt =
    Ok (mkParticle (q self) (m self)
          (np_append (rs self) (vadd r_i (weighted k1r k2r k3r k4r)))
          (np_append (vs self) (vadd v_i (weighted k1v k2v k3v k4v)))).
Proof.
  intros Hm Hr Hv. cbv zeta.
  exact (update_Ok RK4 self dt r_i v_i Hr Hv Hm).
Qed.

(** C4. Each step, Euler or RK4, makes both histories exactly one element
    longer, so histories of equal length stay of equal length; starting
    from histories of length 1, n steps complete and leave both histories
    of length n + 1. *)
Theorem histories_grow_together (k : Integrator) (dt : F) (n : nat) (p : Particle F) :
  fis_zero (value (m p)) = false ->
  rows (rs p) <> [] ->
  rows (vs p) <> [] ->
  exists p', steps E B g k dt n p = Ok p' /\
    length (rows (rs p')) = (length (rows (rs p)) + n)%nat /\
    length (rows (vs p')) = (length (rows (vs p)) + n)%nat /\
    (length (rows (rs p)) = length (rows (vs p)) ->
     length (rows (rs p')) = length (rows (vs p'))) /\
    (length (rows (rs p)) = 1%nat -> length (rows (vs p)) = 1%nat ->
     length (rows (rs p')) = S n /\ length (rows (vs p')) = S n).
Proof.
  intros Hm Hr Hv.
  destruct (steps_grow k dt n p) as (p' & Hs & _ & Hlr & Hlv);
    [now apply nonzero_mass_steppable|].
  exists p'. split; [exact Hs|]. repeat split; lia.
Qed.

(** C10. What a step appends depends only on the charge, the mass, dt and
    the last row of each history: two particles that agree on these,
    whatever their earlier rows, either both raise the same exception or
    append the same position and the same velocity. *)
Theorem step_reads_last_rows_only (k : Integrator) (dt : F) (p1 p2 : Particle F) :
  q p1 = q p2 ->
  m p1 = m p2 ->
  last (rows (rs p1)) = last (rows (rs p2)) ->
  last (rows (vs p1)) = last (rows (vs p2)) ->
  match update E B g k p1 dt, update E B g k p2 dt with
  | Ok p1', Ok p2' =>
      exists r v,
        rs p1' = np_append (rs p1) r /\ vs p1' = np_append (vs p1) v /\
        rs p2' = np_append (rs p2) r /\ vs p2' = np_append (vs p2) v
  | Raise e1, Raise e2 => e1 = e2
  | _, _ => False
  end.
Proof.
  intros Hq Hm Hr Hv. rewrite !update_unfold. unfold last_row.
  rewrite Hq, Hm, Hr, Hv.
  destruct (last (rows (rs p2))) as [ri|]; [|reflexivity].
  destruct (last (rows (vs p2))) as [vi|]; [|reflexivity].
  destruct (truediv (q p2) (m p2)) as [qByM|e]; [|reflexivity].
  cbn. eauto 6.
Qed.
End StepFacts.

Section RunFacts.
Context {F : Type} {SF : Scalar F} {OF : Ordered F} {PF : Pyplot F}.
Variables E B g : Vec3 F -> Vec3 F.

(** *** Loops *)

Lemma for_each_app {A : Type} (body : A -> State F -> outcome F)
    (l1 l2 : list A) (s : State F) :
  for_each body (l1 ++ l2) s =
    match for_each body l1 s with
    | Done s' => for_each body l2 s'
    | Raised e s' => Raised e s'
    end.
Proof.
  revert s. induction l1 as [|x l1 IH]; intros s; [reflexivity|].
  cbn. destruct (body x s) as [s'|e s']; [apply IH|reflexivity].
Qed.

(** A property of the state that every pass through the body keeps, also
    when the body raises, holds where the loop stops. *)
Lemma for_each_invariant {A : Type} (P : State F -> Prop)
    (body : A -> State F -> outcome F) (l : list A) (s : State F) :
  (forall x s0, In x l -> P s0 -> P (final (body x s0))) ->
  P s -> P (final (for_each body l s)).
Proof.
  revert s. induction l as [|x l IH]; intros s Hbody Hs; [exact Hs|].
  cbn. pose proof (Hbody x s (or_introl eq_refl) Hs) as Hx.
  destruct (body x s) as [s'|e s']; [|exact Hx].
  apply IH; [|exact Hx]. intros y s0 Hy. apply Hbody. now right.
Qed.

(** Loops whose bodies agree up to the lines printed agree up to them. *)
Lemma for_each_same_heap {A : Type} (b1 b2 : A -> State F -> outcome F)
    (l : list A) (s1 s2 : State F) :
  (forall x t1 t2, heap t1 = heap t2 -> same_heap (b1 x t1) (b2 x t2)) ->
  heap s1 = heap s2 ->
  same_heap (for_each b1 l s1) (for_each b2 l s2).
Proof.
  intros Hb. revert s1 s2. induction l as [|x l IH]; intros s1 s2 Hs.
  - split; [exact I|exact Hs].
  - cbn. specialize (Hb x s1 s2 Hs).
    destruct (b1 x s1) as [t1|e1 t1], (b2 x s2) as [t2|e2 t2];
      destruct Hb as [Hend Hheap]; cbn in Hend, Hheap; try contradiction.
    + apply IH. exact Hheap.
    + split; assumption.
Qed.

Lemma same_heap_refl (o : outcome F) : same_heap o o.
Proof. split; [|reflexivity]. now destruct o. Qed.

Lemma same_heap_sym (o1 o2 : outcome F) : same_heap o1 o2 -> same_heap o2 o1.
Proof.
  intros [Hend Hheap]. split; [|now symmetry].
  destruct o1, o2; cbn in *; auto.
Qed.

Lemma same_heap_trans (o1 o2 o3 : outcome F) :
  same_heap o1 o2 -> same_heap o2 o3 -> same_heap o1 o3.
Proof.
  intros [Hend1 Hheap1] [Hend2 Hheap2]. split; [|congruence].
  destruct o1, o2, o3; cbn in *; try contradiction; congruence.
Qed.

(** *** Reading calls *)

Lemma final_reading (s : State F) (r : res unit) : final (reading s r) = s.
Proof. now destruct r. Qed.

Lemma reading_same_heap (s1 s2 : State F) (r : res unit) :
  heap s1 = heap s2 -> same_heap (reading s1 r) (reading s2 r).
Proof. intros Hs. destruct r; split; cbn; auto. Qed.

(** What the loops have made of the state is what plotting is given, and
    what [main] leaves. *)
Lemma then_plot_same_heap (o1 o2 : outcome F) (particles : list nat) :
  same_heap o1 o2 ->
  same_heap
    match o1 with
    | Done s' => reading s' (plotResults (heap s') particles)
    | Raised e s' => Raised e s'
    end
    match o2 with
    | Done s' => reading s' (plotResults (heap s') particles)
    | Raised e s' => Raised e s'
    end.
Proof.
  intros [Hend Hheap]. destruct o1 as [t1|e1 t1], o2 as [t2|e2 t2];
    cbn in Hend, Hheap; try contradiction.
  - rewrite Hheap. now apply reading_same_heap.
  - split; assumption.
Qed.

(** *** One call *)

Lemma invoke_Done (k : Integrator) (dt : F) (ref : nat) (s : State F)
    (p p' : Particle F) :
  heap s !! ref = Some p ->
  update E B g k p dt = Ok p' ->
  invoke E B g k dt ref s = Done (mkState (<[ref := p']> (heap s)) (out s)).
Proof. intros Hl Hu. unfold invoke. now rewrite Hl, Hu. Qed.

Lemma invoke_same_heap (k : Integrator) (dt : F) (ref : nat) (s1 s2 : State F) :
  heap s1 = heap s2 ->
  same_heap (invoke E B g k dt ref s1) (invoke E B g k dt ref s2).
Proof.
  intros Hs. unfold invoke. rewrite Hs.
  destruct (heap s2 !! ref) as [p|]; [|now split].
  destruct (update E B g k p dt) as [p'|e]; split; cbn; auto.
Qed.

Lemma invoke_out (k : Integrator) (dt : F) (ref : nat) (s : State F) :
  out (final (invoke E B g k dt ref s)) = out s.
Proof.
  unfold invoke. destruct (heap s !! ref) as [p|]; [|reflexivity].
  now destruct (update E B g k p dt).
Qed.

(** A call leaves every object in place; the one it is made on gets one
    row appended to each history, or nothing at all when the call raises. *)
Lemma invoke_frame (k : Integrator) (dt : F) (ref : nat) (s : State F)
    (j : nat) (p : Particle F) :
  heap s !! j = Some p ->
  exists p', heap (final (invoke E B g k dt ref s)) !! j = Some p' /\
    q p' = q p /\ m p' = m p /\
    ((rs p' = rs p /\ vs p' = vs p) \/
     (j = ref /\ exists r v,
        rs p' = np_append (rs p) r /\ vs p' = np_append (vs p) v)).
Proof.
  intros Hj. unfold invoke.
  destruct (heap s !! ref) as [p0|] eqn:Href; [|exists p; cbn; auto 6].
  destruct (update E B g k p0 dt) as [p0'|e] eqn:Hu; [|exists p; cbn; auto 6].
  cbn. destruct (decide (ref = j)) as [->|Hne].
  - assert (p0 = p) as -> by congruence.
    exists p0'. split.
    + apply list_lookup_insert_eq. eapply lookup_lt_Some; eassumption.
    + apply (update_grows E B g) in Hu as (Hq & Hm & Hgrow). auto 6.
  - exists p. rewrite list_lookup_insert_ne by exact Hne. auto 6.
Qed.

Lemma invoke_other (k : Integrator) (dt : F) (ref j : nat) (s : State F) :
  ref <> j ->
  heap (final (invoke E B g k dt ref s)) !! j = heap s !! j /\
  length (heap (final (invoke E B g k dt ref s))) = length (heap s).
Proof.
  intros Hne. unfold invoke.
  destruct (heap s !! ref) as [p|]; [|now split].
  destruct (update E B g k p dt) as [p'|e]; [|now split].
  cbn. split; [now apply list_lookup_insert_ne|apply length_insert].
Qed.

(** A particle whose charge/mass raises is never changed by a call, on it
    or elsewhere. *)
Lemma invoke_zero_mass (k : Integrator) (dt : F) (ref : nat) (s : State F)
    (j : nat) (p : Particle F) :
  is_python (q p) = true -> is_python (m p) = true ->
  fis_zero (value (m p)) = true ->
  heap s !! j = Some p ->
  heap (final (invoke E B g k dt ref s)) !! j = Some p.
Proof.
  intros Hpq Hpm Hm Hj. unfold invoke.
  destruct (heap s !! ref) as [p0|] eqn:Href; [|exact Hj].
  destruct (update E B g k p0 dt) as [p0'|e] eqn:Hu; [|exact Hj].
  cbn. destruct (decide (ref = j)) as [->|Hne].
  - assert (p0 = p) as -> by congruence.
    destruct (update_zero_mass E B g k p dt Hpq Hpm Hm) as (e & He & _). congruence.
  - now rewrite list_lookup_insert_ne.
Qed.

(** What a step leaves of a history. *)
Lemma np_append_keeps_rows (h : History F) (r : Vec3 F) : keeps_rows h (np_append h r).
Proof.
  split.
  - intros i x Hi. rewrite rows_np_append. now apply lookup_app_l_Some.
  - destruct h as [l|l]; cbn.
    + right. eexists. split; [reflexivity|].
      intros i z Hi. apply lookup_app_l_Some.
      change (((astype <$> l) : list (Vec3 F)) !! i = Some (astype z)).
      now rewrite list_lookup_fmap, Hi.
    + eexists. split; [reflexivity|].
      intros i x Hi. now apply lookup_app_l_Some.
Qed.

Lemma keeps_rows_refl (h : History F) : keeps_rows h h.
Proof.
  split; [auto|]. destruct h as [l|l]; [now left|].
  exists l. auto.
Qed.

(** *** One pass over the particles *)

Lemma pass_steps (k : Integrator) (dt : F) (l : list nat) (s : State F) :
  all_steppable (heap s) l ->
  exists s', for_each (invoke E B g k dt) l s = Done s' /\
    out s' = out s /\
    length (heap s') = length (heap s) /\
    forall j p, heap s !! j = Some p ->
      exists p', steps E B g k dt (count_occ Nat.eq_dec l j) p = Ok p' /\
        heap s' !! j = Some p'.
Proof.
  revert s. induction l as [|ref l IH]; intros s Hall.
  - exists s. cbn. repeat split. eauto.
  - destruct (Hall ref) as (p0 & Hp0 & Hst0); [now left|].
    destruct (steppable_update E B g k p0 dt Hst0) as (p0' & Hu & Hst0').
    pose (s1 := mkState (<[ref := p0']> (heap s)) (out s)).
    assert (Hlt : (ref < length (heap s))%nat) by (eapply lookup_lt_Some; eassumption).
    destruct (IH s1) as (s' & Hloop & Hout & Hlen & Hobj).
    { intros r Hr. cbn. destruct (decide (ref = r)) as [<-|Hne].
      - exists p0'. split; [now apply list_lookup_insert_eq|exact Hst0'].
      - rewrite list_lookup_insert_ne by exact Hne. apply Hall. now right. }
    exists s'. cbn [for_each]. rewrite (invoke_Done k dt ref s p0 p0' Hp0 Hu).
    fold s1. split; [exact Hloop|]. split; [exact Hout|].
    split; [rewrite Hlen; cbn; apply length_insert|].
    intros j p Hj. cbn [count_occ]. destruct (Nat.eq_dec ref j) as [<-|Hne].
    + assert (p0 = p) as <- by congruence.
      cbn [steps]. rewrite Hu. cbn. apply Hobj. cbn.
      now apply list_lookup_insert_eq.
    + apply Hobj. cbn. now rewrite list_lookup_insert_ne.
Qed.

Lemma pass_keeps_steppable (k : Integrator) (dt : F) (l : list nat) (s s' : State F) :
  all_steppable (heap s) l ->
  for_each (invoke E B g k dt) l s = Done s' ->
  all_steppable (heap s') l.
Proof.
  intros Hall Hloop ref Hin.
  destruct (pass_steps k dt l s Hall) as (s'' & Hloop' & _ & _ & Hobj).
  assert (s'' = s') as -> by congruence.
  destruct (Hall ref Hin) as (p & Hp & Hst).
  destruct (Hobj ref p Hp) as (p' & Hsteps & Hp').
  exists p'. split; [exact Hp'|].
  destruct (steps_grow E B g k dt (count_occ Nat.eq_dec l ref) p Hst)
    as (p'' & Hsteps' & Hst' & _).
  congruence.
Qed.

(** A pass over a list that mentions a particle whose charge/mass raises
    raises. *)
Lemma pass_zero_mass_raises (k : Integrator) (dt : F) (l : list nat) (s : State F)
    (j : nat) (p : Particle F) :
  is_python (q p) = true -> is_python (m p) = true ->
  fis_zero (value (m p)) = true ->
  heap s !! j = Some p ->
  In j l ->
  exists e s', for_each (invoke E B g k dt) l s = Raised e s'.
Proof.
  intros Hpq Hpm Hm. revert s.
  induction l as [|ref l IH]; intros s Hj Hin; [destruct Hin|].
  cbn [for_each]. destruct (invoke E B g k dt ref s) as [s1|e s1] eqn:Hinv; [|eauto].
  assert (Hj1 : heap s1 !! j = Some p).
  { pose proof (invoke_zero_mass k dt ref s j p Hpq Hpm Hm Hj) as Hkeep.
    now rewrite Hinv in Hkeep. }
  destruct Hin as [->|Hin]; [|now apply IH].
  exfalso. unfold invoke in Hinv. rewrite Hj in Hinv.
  destruct (update_zero_mass E B g k p dt Hpq Hpm Hm) as (e & He & _).
  rewrite He in Hinv. discriminate.
Qed.

(** *** All the passes *)

Lemma progress_heap (i n : Z) (s : State F) : heap (progress i n s) = heap s.
Proof. unfold progress. now destruct (i mod 1000 =? 0). Qed.

Lemma timestep_same_heap (k : Integrator) (dt : F) (l : list nat) (n1 n2 i : Z)
    (s1 s2 : State F) :
  heap s1 = heap s2 ->
  same_heap (timestep E B g k dt l n1 i s1) (timestep E B g k dt l n2 i s2).
Proof.
  intros Hs. unfold timestep. apply for_each_same_heap.
  - intros ref t1 t2. apply invoke_same_heap.
  - now rewrite !progress_heap.
Qed.

Lemma passes_steps (k : Integrator) (dt : F) (l : list nat) (n : Z)
    (idx : list Z) (s : State F) :
  all_steppable (heap s) l ->
  exists s', for_each (timestep E B g k dt l n) idx s = Done s' /\
    length (heap s') = length (heap s) /\
    out s' = out s ++
      ((fun i => Progress i n) <$> List.filter (fun i => i mod 1000 =? 0) idx) /\
    forall j p, heap s !! j = Some p ->
      exists p',
        steps E B g k dt (length idx * count_occ Nat.eq_dec l j) p = Ok p' /\
        heap s' !! j = Some p'.
Proof.
  revert s. induction idx as [|i idx IH]; intros s Hall.
  - exists s. cbn. rewrite app_nil_r. repeat split. eauto.
  - destruct (pass_steps k dt l (progress i n s)) as (s1 & Hpass & Hout1 & Hlen1 & Hobj1).
    { now rewrite progress_heap. }
    assert (Hall1 : all_steppable (heap s1) l).
    { eapply pass_keeps_steppable; [|exact Hpass]. now rewrite progress_heap. }
    destruct (IH s1 Hall1) as (s' & Hrest & Hlen & Hout & Hobj).
    exists s'. cbn [for_each]. unfold timestep at 1. rewrite Hpass.
    split; [exact Hrest|]. split; [rewrite Hlen, Hlen1; now rewrite progress_heap|].
    split.
    + rewrite Hout, Hout1. cbn [List.filter].
      unfold progress. destruct (i mod 1000 =? 0); cbn; [|reflexivity].
      now rewrite <- app_assoc.
    + intros j p Hj. rewrite <- (progress_heap i n s) in Hj.
      destruct (Hobj1 j p Hj) as (p1 & Hsteps1 & Hp1).
      destruct (Hobj j p1 Hp1) as (p' & Hsteps & Hp').
      exists p'. split; [|exact Hp'].
      cbn [length Nat.mul]. rewrite (steps_add E B g), Hsteps1. exact Hsteps.
Qed.

(** The passes amount to one call per entry of the list, the list taken
    as many times as there are passes. *)
Lemma passes_flat (k : Integrator) (dt : F) (l : list nat) (n : Z)
    (idx : list Z) (s s0 : State F) :
  heap s = heap s0 ->
  same_heap (for_each (timestep E B g k dt l n) idx s)
            (for_each (invoke E B g k dt) (concat (replicate (length idx) l)) s0).
Proof.
  revert s s0. induction idx as [|i idx IH]; intros s s0 Hs.
  - split; [exact I|exact Hs].
  - cbn [for_each length replicate concat]. rewrite for_each_app.
    assert (Hpass : same_heap (timestep E B g k dt l n i s)
                              (for_each (invoke E B g k dt) l s0)).
    { unfold timestep. apply for_each_same_heap.
      - intros ref t1 t2. apply invoke_same_heap.
      - now rewrite progress_heap. }
    destruct (timestep E B g k dt l n i s) as [t1|e1 t1],
             (for_each (invoke E B g k dt) l s0) as [t2|e2 t2];
      destruct Hpass as [Hend Hheap]; cbn in Hend, Hheap; try contradiction.
    + apply IH. exact Hheap.
    + split; assumption.
Qed.

(** *** The whole run *)

(** Plotting changes no particle and prints nothing: what [main] leaves is
    what its passes leave. *)
Lemma main_final (s : State F) (particles : list nat) (t dt : Number F)
    (integrator : string) :
  final (main E B g s particles t dt integrator) =
    match iterations t dt with
    | Raise _ => s
    | Ok n =>
        final (for_each (timestep E B g (select integrator) (value dt) particles n)
                 (seqZ 0 n) s)
    end.
Proof.
  unfold main. destruct (iterations t dt) as [n|e]; [|reflexivity].
  destruct (for_each _ _ s) as [s'|e s']; [apply final_reading|reflexivity].
Qed.

Lemma main_same_heap (s1 s2 : State F) (particles : list nat) (t dt : Number F)
    (i1 i2 : string) :
  heap s1 = heap s2 ->
  select i1 = select i2 ->
  same_heap (main E B g s1 particles t dt i1) (main E B g s2 particles t dt i2).
Proof.
  intros Hs Hsel. unfold main. rewrite Hsel.
  destruct (iterations t dt) as [n|e]; [|now split].
  apply then_plot_same_heap.
  apply for_each_same_heap; [|exact Hs].
  intros i t1 t2. apply timestep_same_heap.
Qed.

(** A property of the heap kept by every call on a listed particle is kept
    by a whole run, however the run ends. *)
Lemma main_invariant (P : list (Particle F) -> Prop) (s : State F)
    (particles : list nat) (t dt : Number F) (integrator : string) :
  (forall k ref s0, In ref particles -> P (heap s0) ->
     P (heap (final (invoke E B g k (value dt) ref s0)))) ->
  P (heap s) ->
  P (heap (final (main E B g s particles t dt integrator))).
Proof.
  intros Hcall Hs. rewrite main_final. destruct (iterations t dt) as [n|e]; [|exact Hs].
  apply (for_each_invariant (fun s0 => P (heap s0))); [|exact Hs].
  intros i s0 _ Hs0. unfold timestep.
  apply (for_each_invariant (fun s1 => P (heap s1))).
  - intros ref s1. apply Hcall.
  - now rewrite progress_heap.
Qed.

Lemma same_particle_eq (h1 h2 : list (Particle F)) :
  Forall2 same_particle h1 h2 -> h1 = h2.
Proof.
  induction 1 as [|p1 p2 h1 h2 (Hq & Hm & Hr & Hv) _ IH]; [reflexivity|].
  destruct p1, p2. cbn in *. congruence.
Qed.

Lemma same_histories_refl (h : list (Particle F)) : Forall2 same_histories h h.
Proof. induction h; constructor; [split; reflexivity|assumption]. Qed.

(** *** The claims about calls and runs *)

(** C8, as the code has it.  A step on any object of the heap, whether it
    completes or raises, leaves the charge and the mass of every object as
    they were, and the only change to a history is [np.append] on the two
    histories of the object stepped.  That keeps every row, as float64,
    at its index; a float64 array keeps its rows bit for bit; an int64
    array is replaced by a float64 one holding its rows converted. *)
Theorem step_only_appends (k : Integrator) (dt : F) (ref : nat) (s : State F)
    (j : nat) (p : Particle F) :
  heap s !! j = Some p ->
  exists p', heap (final (invoke E B g k dt ref s)) !! j = Some p' /\
    q p' = q p /\ m p' = m p /\
    ((rs p' = rs p /\ vs p' = vs p) \/
     (j = ref /\ exists r v,
        rs p' = np_append (rs p) r /\ vs p' = np_append (vs p) v)) /\
    keeps_rows (rs p) (rs p') /\ keeps_rows (vs p) (vs p').
Proof.
  intros Hj. destruct (invoke_frame k dt ref s j p Hj) as (p' & Hp' & Hq & Hm & Hcase).
  exists p'. repeat (split; [assumption|]).
  destruct Hcase as [[-> ->]|(_ & r & v & -> & ->)].
  - split; apply keeps_rows_refl.
  - split; apply np_append_keeps_rows.
Qed.

(** C9. Two runs on particles with the same charges, masses, positions and
    velocities, with the same t and dt and the same integrator selected,
    end the same way and leave every particle with the same position and
    velocity histories. *)
Theorem runs_are_reproducible (s1 s2 : State F) (particles : list nat)
    (t dt : Number F) (integrator1 integrator2 : string) :
  Forall2 same_particle (heap s1) (heap s2) ->
  select integrator1 = select integrator2 ->
  same_ending (main E B g s1 particles t dt integrator1)
              (main E B g s2 particles t dt integrator2) /\
  Forall2 same_histories
    (heap (final (main E B g s1 particles t dt integrator1)))
    (heap (final (main E B g s2 particles t dt integrator2))).
Proof.
  intros Hsame Hsel. apply same_particle_eq in Hsame.
  destruct (main_same_heap s1 s2 particles t dt integrator1 integrator2 Hsame Hsel)
    as [Hend Hheap].
  split; [exact Hend|]. rewrite Hheap. apply same_histories_refl.
Qed.
End RunFacts.

(** ** Doubles: what zeros, infinities and NaN do *)

Section Doubles.

Lemma zero_is_zero : B64.is_zero (fofZ 0) = true.
Proof. reflexivity. Qed.

Lemma two_is_finite : B64.finite (fofZ 2) = true.
Proof. reflexivity. Qed.

Lemma zero_finite (x : spec_float) : B64.is_zero x = true -> B64.finite x = true.
Proof. now destruct x. Qed.

Lemma zero_times_finite (x y : spec_float) :
  B64.is_zero x = true -> B64.finite y = true -> B64.is_zero (fmul x y) = true.
Proof. destruct x, y; cbn; try discriminate; reflexivity. Qed.

Lemma finite_times_zero (x y : spec_float) :
  B64.finite x = true -> B64.is_zero y = true -> B64.is_zero (fmul x y) = true.
Proof. destruct x, y; cbn; try discriminate; reflexivity. Qed.

Lemma zero_plus_zero (x y : spec_float) :
  B64.is_zero x = true -> B64.is_zero y = true -> B64.is_zero (fadd x y) = true.
Proof. destruct x as [[]| | |], y as [[]| | |]; cbn; try discriminate; reflexivity. Qed.

Lemma zero_minus_zero (x y : spec_float) :
  B64.is_zero x = true -> B64.is_zero y = true -> B64.is_zero (fsub x y) = true.
Proof. destruct x as [[]| | |], y as [[]| | |]; cbn; try discriminate; reflexivity. Qed.

(** Adding a zero to a finite double gives a double that compares equal. *)
Lemma finite_plus_zero (x z : spec_float) :
  B64.finite x = true -> B64.is_zero z = true ->
  same_number (fadd x z) x /\ B64.finite (fadd x z) = true.
Proof.
  destruct x as [[]| | |], z as [[]| | |]; cbn; try discriminate; intros _ _;
    (split; [|reflexivity]); first [now left | now right].
Qed.

Lemma same_number_refl (x : spec_float) : same_number x x.
Proof. now left. Qed.

Lemma same_number_trans (x y z : spec_float) :
  same_number x y -> same_number y z -> same_number x z.
Proof.
  intros [->|[Hx Hy]] [->|[Hy' Hz]]; try (now left); right; split; assumption.
Qed.

(** A quotient by zero is an infinity or NaN. *)
Lemma quotient_by_zero (x y : spec_float) :
  B64.is_zero y = true -> B64.finite (fdiv x y) = false.
Proof. destruct x, y; cbn; try discriminate; reflexivity. Qed.

(** [int] of a quotient by zero raises. *)
Lemma int_of_quotient_by_zero (x y : spec_float) :
  B64.is_zero y = true ->
  B64.to_int (fdiv x y) = Raise OverflowError \/ B64.to_int (fdiv x y) = Raise ValueError.
Proof. destruct x, y; cbn; try discriminate; auto. Qed.

(** [int] and [math.floor] raise the same exceptions, and the counts they
    return make [range] run through the same numbers: they differ on
    negative doubles only, where [range] is empty. *)
Lemma int_floor_same_range (x : spec_float) :
  match B64.to_int x, B64.floor x with
  | Ok n, Ok n' => seqZ 0 n = seqZ 0 n'
  | Raise e, Raise e' => e = e'
  | _, _ => False
  end.
Proof.
  destruct x as [s|s| |[] m e]; cbn; try reflexivity.
  unfold B64.trunc_finite, seqZ. cbn [cond_Zopp].
  pose proof (proj2 (Z.shiftl_nonneg (Zpos m) e) ltac:(lia)) as Hpos.
  assert (Hneg : Z.shiftl (Zneg m) e <= 0).
  { destruct (Z_le_gt_dec (Z.shiftl (Zneg m) e) 0) as [Hle|Hgt]; [exact Hle|].
    assert (Habs : 0 <= Z.neg m) by (apply (Z.shiftl_nonneg _ e); lia). lia. }
  change (Z.shiftl (Z.neg m) e <= 0) with (Z.shiftl (- Z.pos m) e <= 0) in Hneg.
  replace (Z.to_nat (- Z.shiftl (Z.pos m) e)) with 0%nat by lia.
  replace (Z.to_nat (Z.shiftl (- Z.pos m) e)) with 0%nat by lia.
  reflexivity.
Qed.

(** *** Dividing by 2 and by 6 does not overflow *)

Lemma digits2_pos_size (p : positive) : digits2_pos p = Pos.size p.
Proof. induction p; cbn; congruence. Qed.

Lemma Zdigits2_log2 (m : Z) : 0 < m -> Zdigits2 m = Z.log2 m + 1.
Proof.
  destruct m as [|p|p]; try lia. intros _. cbn [Zdigits2].
  rewrite digits2_pos_size. destruct p; cbn; lia.
Qed.

Lemma Zdigits2_nonneg (m : Z) : 0 <= m -> 0 <= Zdigits2 m.
Proof. destruct m; cbn; lia. Qed.

Lemma Zdigits2_bound (m d : Z) : 0 <= m -> 0 <= d -> m < 2 ^ d -> Zdigits2 m <= d.
Proof.
  intros Hm Hd Hlt. destruct (Z.eq_dec m 0) as [->|Hne]; [exact Hd|].
  rewrite Zdigits2_log2 by lia.
  assert (Z.log2 m < d) by (apply Z.log2_lt_pow2; lia). lia.
Qed.

Lemma Zdigits2_above (m : Z) : 0 <= m -> m < 2 ^ Zdigits2 m.
Proof.
  intros Hm. destruct (Z.eq_dec m 0) as [->|Hne]; [reflexivity|].
  rewrite Zdigits2_log2 by lia.
  replace (Z.log2 m + 1) with (Z.succ (Z.log2 m)) by lia.
  apply Z.log2_spec. lia.
Qed.

Lemma Zdigits2_below (m : Z) : 0 < m -> 2 ^ (Zdigits2 m - 1) <= m.
Proof.
  intros Hm. rewrite Zdigits2_log2 by lia.
  replace (Z.log2 m + 1 - 1) with (Z.log2 m) by lia.
  apply Z.log2_spec. lia.
Qed.

Lemma shr_1_m (r : shr_record) : 0 <= shr_m r -> shr_m (shr_1 r) = shr_m r / 2.
Proof.
  destruct r as [[|[p|p|]|p] r0 s0]; cbn [shr_m shr_1]; intros Hm; try lia;
    try reflexivity.
  - rewrite Pos2Z.inj_xI. Z.div_mod_to_equations. lia.
  - rewrite Pos2Z.inj_xO. Z.div_mod_to_equations. lia.
Qed.

Lemma pow2_xO (p : positive) : 2 ^ Zpos p~0 = 2 ^ Zpos p * 2 ^ Zpos p.
Proof. rewrite Pos2Z.inj_xO, <- Z.pow_add_r by lia. f_equal. lia. Qed.

Lemma pow2_xI (p : positive) : 2 ^ Zpos p~1 = 2 * 2 ^ Zpos p * 2 ^ Zpos p.
Proof.
  rewrite Pos2Z.inj_xI. replace (2 * Zpos p + 1) with (1 + Zpos p + Zpos p) by lia.
  rewrite !Z.pow_add_r by lia. reflexivity.
Qed.

Lemma iter_shr_1_m (p : positive) (r : shr_record) :
  0 <= shr_m r -> shr_m (SpecFloat.iter_pos shr_1 p r) = shr_m r / 2 ^ Zpos p.
Proof.
  revert r. induction p as [p IH|p IH|]; intros r Hm; cbn [SpecFloat.iter_pos].
  - assert (H1 : 0 <= shr_m (shr_1 r)) by (rewrite shr_1_m by lia; apply Z.div_pos; lia).
    assert (H2 : 0 <= shr_m (SpecFloat.iter_pos shr_1 p (shr_1 r)))
      by (rewrite IH by lia; apply Z.div_pos; lia).
    rewrite IH, IH, shr_1_m by lia.
    rewrite !Z.div_div by lia. rewrite pow2_xI. f_equal. ring.
  - assert (H2 : 0 <= shr_m (SpecFloat.iter_pos shr_1 p r))
      by (rewrite IH by lia; apply Z.div_pos; lia).
    rewrite IH, IH by lia. rewrite !Z.div_div by lia. rewrite pow2_xO. f_equal.
  - rewrite shr_1_m by lia. reflexivity.
Qed.

Lemma fexp_mono (x y : Z) : x <= y -> fexp 53 1024 x <= fexp 53 1024 y.
Proof. unfold fexp, emin. lia. Qed.

(** Shifting a mantissa to its canonical exponent keeps it below a bound
    [M] on digits plus exponent, and its exponent below [X]. *)
Lemma shr_fexp_bound (M X m e : Z) (l : location) :
  fexp 53 1024 M <= X -> X <= M ->
  0 <= m -> e <= X -> Zdigits2 m + e <= M ->
  0 <= shr_m (fst (shr_fexp 53 1024 m e l)) /\
  snd (shr_fexp 53 1024 m e l) <= X /\
  Zdigits2 (shr_m (fst (shr_fexp 53 1024 m e l))) + snd (shr_fexp 53 1024 m e l) <= M.
Proof.
  intros HM HX Hm He Hd. unfold shr_fexp, shr.
  assert (Hrec : shr_m (shr_record_of_loc m l) = m) by (destruct l as [|[]]; reflexivity).
  pose proof (fexp_mono _ _ Hd) as Hf.
  destruct (fexp 53 1024 (Zdigits2 m + e) - e) as [|k|k] eqn:Hk; cbn [fst snd];
    rewrite ?Hrec; try (repeat split; lia).
  rewrite iter_shr_1_m by lia. rewrite Hrec.
  assert (Hpow : 0 < 2 ^ Zpos k) by (apply Z.pow_pos_nonneg; lia).
  assert (Hq : 0 <= m / 2 ^ Zpos k) by (apply Z.div_pos; lia).
  split; [exact Hq|]. split; [lia|].
  destruct (Z_lt_le_dec (Zdigits2 m) (Zpos k)) as [Hsmall|Hbig].
  - assert (Hzero : m / 2 ^ Zpos k = 0).
    { apply Z.div_small. split; [exact Hm|].
      apply Z.lt_le_trans with (2 ^ Zdigits2 m); [now apply Zdigits2_above|].
      apply Z.pow_le_mono_r; lia. }
    rewrite Hzero. cbn [Zdigits2]. lia.
  - assert (Zdigits2 (m / 2 ^ Zpos k) <= Zdigits2 m - Zpos k); [|lia].
    apply Zdigits2_bound; [exact Hq|lia|].
    apply Z.div_lt_upper_bound; [exact Hpow|].
    rewrite <- Z.pow_add_r by lia.
    replace (Zpos k + (Zdigits2 m - Zpos k)) with (Zdigits2 m) by lia.
    now apply Zdigits2_above.
Qed.

Lemma round_nearest_even_bound (m : Z) (l : location) :
  0 <= m ->
  0 <= round_nearest_even m l /\ Zdigits2 (round_nearest_even m l) <= Zdigits2 m + 1.
Proof.
  intros Hm.
  assert (Hup : 0 <= m + 1 /\ Zdigits2 (m + 1) <= Zdigits2 m + 1).
  { split; [lia|]. pose proof (Zdigits2_nonneg m Hm).
    apply Zdigits2_bound; [lia|lia|].
    pose proof (Zdigits2_above m Hm). rewrite Z.pow_add_r by lia.
    change (2 ^ 1) with 2. lia. }
  assert (Hsame : 0 <= m /\ Zdigits2 m <= Zdigits2 m + 1) by lia.
  unfold round_nearest_even. destruct l as [|[]]; try assumption.
  now destruct (Z.even m).
Qed.

(** Rounding a mantissa that is not negative gives a finite double as long as
    digits plus exponent leave room for one carry below the largest
    exponent. *)
Lemma binary_round_aux_finite (M X : Z) (s : bool) (m e : Z) (l : location) :
  fexp 53 1024 (M + 1) <= X -> X <= M -> X <= 1024 - 53 ->
  0 <= m -> e <= X -> Zdigits2 m + e <= M ->
  B64.finite (binary_round_aux 53 1024 s m e l) = true.
Proof.
  intros HM HX Hmax Hm He Hd. unfold binary_round_aux.
  assert (HM0 : fexp 53 1024 M <= X) by (pose proof (fexp_mono M (M + 1)); lia).
  destruct (shr_fexp_bound M X m e l HM0 HX Hm He Hd) as (H1m & H1e & H1d).
  destruct (shr_fexp 53 1024 m e l) as [mrs' e'] eqn:Hfirst. cbn [fst snd] in *.
  destruct (round_nearest_even_bound (shr_m mrs') (loc_of_shr_record mrs') H1m)
    as [Hr Hrd].
  destruct (shr_fexp_bound (M + 1) X
              (round_nearest_even (shr_m mrs') (loc_of_shr_record mrs')) e' loc_Exact)
    as (H2m & H2e & _); try lia.
  destruct (shr_fexp 53 1024 _ e' loc_Exact) as [mrs'' e''] eqn:Hsecond.
  cbn [fst snd] in *.
  destruct (shr_m mrs'') as [|p|p]; [reflexivity| |lia].
  replace (e'' <=? 1024 - 53) with true; [reflexivity|].
  symmetry. apply Z.leb_le. lia.
Qed.

Lemma bounded_inv (m : positive) (e : Z) :
  bounded 53 1024 m e = true ->
  Zdigits2 (Zpos m) <= 53 /\ - 1074 <= e /\ e <= 1024 - 53 /\ e = fexp 53 1024 (Zdigits2 (Zpos m) + e).
Proof.
  unfold bounded, canonical_mantissa. intros Hb.
  apply andb_true_iff in Hb as [Hc He]. apply Z.eqb_eq in Hc. apply Z.leb_le in He.
  cbn [Zdigits2]. unfold fexp, emin in *. lia.
Qed.

Lemma aligned_mantissa (m s : Z) :
  0 <= m ->
  let m' := match s with Zpos _ => Z.shiftl m s | 0 => m | Zneg _ => 0 end in
  0 <= m' /\ (0 <= s -> m' = m * 2 ^ s) /\ (s < 0 -> m' = 0).
Proof.
  intros Hm. destruct s as [|p|p]; cbn zeta.
  - split; [exact Hm|]. split; [intros _; rewrite Z.pow_0_r; lia|lia].
  - rewrite Z.shiftl_mul_pow2 by lia.
    assert (0 < 2 ^ Zpos p) by (apply Z.pow_pos_nonneg; lia).
    split; [nia|]. split; [reflexivity|lia].
  - split; [lia|]. split; [lia|reflexivity].
Qed.

(** A double divided by one that is at least 2 does not overflow. *)
Lemma SFdiv_finite (sx : bool) (mx : positive) (ex : Z) (sy : bool) (my : positive) (ey : Z) :
  bounded 53 1024 mx ex = true ->
  2 <= Zdigits2 (Zpos my) + ey ->
  B64.finite (SFdiv 53 1024 (S754_finite sx mx ex) (S754_finite sy my ey)) = true.
Proof.
  intros Hb Hy. apply bounded_inv in Hb as (Hd1 & Hlo & Hhi & Hcanon).
  cbn [SFdiv]. unfold SFdiv_core_binary.
  set (d1 := Zdigits2 (Zpos mx)) in *. set (d2 := Zdigits2 (Zpos my)) in *.
  set (e' := Z.min (fexp 53 1024 (d1 + ex - (d2 + ey))) (ex - ey)).
  set (s := ex - ey - e').
  set (m' := match s with Zpos _ => Z.shiftl (Zpos mx) s | 0 => Zpos mx | Zneg _ => 0 end).
  assert (Hd1pos : 1 <= d1) by (unfold d1; cbn; lia).
  assert (Hd2pos : 1 <= d2) by (unfold d2; cbn; lia).
  assert (He' : e' <= ex).
  { unfold e'. pose proof (fexp_mono (d1 + ex - (d2 + ey)) (d1 + ex)). lia. }
  pose proof (Z_div_mod m' (Zpos my) ltac:(lia)) as Hdiv.
  destruct (Z.div_eucl m' (Zpos my)) as [q r] eqn:Hqr.
  destruct Hdiv as [Hm' Hr].
  set (K := Z.max (d1 + s - d2 + 1) 0).
  assert (Hq : 0 <= q /\ Zdigits2 q <= K).
  { assert (Hm'0 : 0 <= m' /\ m' < Zpos my * 2 ^ K).
    { assert (Hmy : 2 ^ (d2 - 1) <= Zpos my) by (apply Zdigits2_below; lia).
      assert (HK : 0 < 2 ^ K) by (apply Z.pow_pos_nonneg; lia).
      destruct (aligned_mantissa (Zpos mx) s ltac:(lia)) as (Hnn' & Hshift & Hzero).
      fold m' in Hnn', Hshift, Hzero.
      destruct (Z_lt_le_dec s 0) as [Hneg|Hnn].
      - rewrite (Hzero Hneg). nia.
      - rewrite (Hshift Hnn).
        assert (Hs : 0 < 2 ^ s) by (apply Z.pow_pos_nonneg; lia).
        split; [nia|].
        apply Z.lt_le_trans with (2 ^ d1 * 2 ^ s).
        + apply Z.mul_lt_mono_pos_r; [exact Hs|]. apply (Zdigits2_above (Zpos mx)). lia.
        + apply Z.le_trans with (2 ^ (d2 - 1) * 2 ^ K).
          * rewrite <- !Z.pow_add_r by lia. apply Z.pow_le_mono_r; lia.
          * apply Z.mul_le_mono_nonneg_r; lia. }
    assert (Hq0 : 0 <= q) by nia.
    split; [exact Hq0|]. apply Zdigits2_bound; [exact Hq0|lia|]. nia. }
  destruct Hq as [Hq0 HqK].
  apply (binary_round_aux_finite (Z.max (d1 + ex - 1) ex) ex); try lia.
  unfold fexp, emin in *. lia.
Qed.

(** Halving a double, or dividing it by 6, never overflows. *)
Lemma div_small_finite (x : spec_float) (k : Z) :
  k = 2 \/ k = 6 ->
  B64.valid x = true -> B64.finite x = true ->
  B64.finite (SFdiv 53 1024 x (binary_normalize 53 1024 k 0 false)) = true.
Proof.
  intros Hk Hvalid Hfin. destruct x as [sx| | |sx mx ex]; try discriminate.
  - destruct Hk as [-> | ->]; reflexivity.
  - destruct Hk as [-> | ->].
    + change (binary_normalize 53 1024 2 0 false)
        with (S754_finite false 4503599627370496 (-51)).
      apply SFdiv_finite; [exact Hvalid|cbn; lia].
    + change (binary_normalize 53 1024 6 0 false)
        with (S754_finite false 6755399441055744 (-50)).
      apply SFdiv_finite; [exact Hvalid|cbn; lia].
Qed.

Lemma finite_step_of_double (dt : spec_float) :
  B64.valid dt = true -> B64.finite dt = true -> finite_step dt = true.
Proof.
  intros Hvalid Hfin. unfold finite_step.
  apply andb_true_iff; split; [apply andb_true_iff; split|].
  - exact Hfin.
  - exact (div_small_finite dt 2 (or_introl eq_refl) Hvalid Hfin).
  - exact (div_small_finite dt 6 (or_intror eq_refl) Hvalid Hfin).
Qed.
End Doubles.

(** ** The claims that rest on binary64 *)

Section Binary64Facts.
Context {PF : Pyplot spec_float}.
Variables E B g : Vec3 spec_float -> Vec3 spec_float.

(** *** Vectors of zeros *)

Lemma finite_vec_true (v : Vec3 spec_float) :
  finite_vec v = true <->
  B64.finite (vx v) = true /\ B64.finite (vy v) = true /\ B64.finite (vz v) = true.
Proof. unfold finite_vec. rewrite !andb_true_iff. tauto. Qed.

Lemma zeros_vzero : zeros vzero.
Proof. repeat split. Qed.

Lemma zeros_vadd (u v : Vec3 spec_float) : zeros u -> zeros v -> zeros (vadd u v).
Proof.
  intros (Hx & Hy & Hz) (Hx' & Hy' & Hz'). repeat split; now apply zero_plus_zero.
Qed.

Lemma zeros_vmuls (u : Vec3 spec_float) (s : spec_float) :
  zeros u -> B64.finite s = true -> zeros (vmuls u s).
Proof. intros (Hx & Hy & Hz) Hs. repeat split; now apply zero_times_finite. Qed.

Lemma zeros_smulv (s : spec_float) (u : Vec3 spec_float) :
  B64.finite s = true -> zeros u -> zeros (smulv s u).
Proof. intros Hs (Hx & Hy & Hz). repeat split; now apply finite_times_zero. Qed.

Lemma zeros_cross (v b : Vec3 spec_float) :
  finite_vec v = true -> zeros b -> zeros (cross v b).
Proof.
  intros Hv (Hx & Hy & Hz). apply finite_vec_true in Hv as (Hvx & Hvy & Hvz).
  repeat split; cbn [cross vx vy vz]; apply zero_minus_zero; now apply finite_times_zero.
Qed.

Lemma vadd_zeros_r (v z : Vec3 spec_float) :
  finite_vec v = true -> zeros z ->
  same_numbers (vadd v z) v /\ finite_vec (vadd v z) = true.
Proof.
  intros Hv (Hx & Hy & Hz). apply finite_vec_true in Hv as (Hvx & Hvy & Hvz).
  destruct (finite_plus_zero _ _ Hvx Hx) as [Sx Fx].
  destruct (finite_plus_zero _ _ Hvy Hy) as [Sy Fy].
  destruct (finite_plus_zero _ _ Hvz Hz) as [Sz Fz].
  split; [repeat split; assumption|]. apply finite_vec_true. repeat split; assumption.
Qed.

Lemma same_numbers_refl (v : Vec3 spec_float) : same_numbers v v.
Proof. repeat split; apply same_number_refl. Qed.

Lemma same_numbers_trans (u v w : Vec3 spec_float) :
  same_numbers u v -> same_numbers v w -> same_numbers u w.
Proof.
  intros (Hx & Hy & Hz) (Hx' & Hy' & Hz').
  repeat split; eapply same_number_trans; eassumption.
Qed.

(** *** No field, no acceleration *)

Section NoField.
Hypothesis E_vanishes : vanishes E.
Hypothesis B_vanishes : vanishes B.
Hypothesis g_vanishes : vanishes g.

Lemma a_zeros (qByM : spec_float) (r v : Vec3 spec_float) :
  B64.finite qByM = true -> finite_vec v = true -> zeros (a E B g qByM r v).
Proof.
  intros Hq Hv. unfold a. rewrite E_vanishes, B_vanishes, g_vanishes.
  apply zeros_vadd; [|apply zeros_vzero].
  apply zeros_smulv; [exact Hq|].
  apply zeros_vadd; [apply zeros_vzero|]. apply zeros_cross; [exact Hv|apply zeros_vzero].
Qed.

(** One step, of either kind, appends a velocity that compares equal to the
    one it read. *)
Lemma next_keeps_velocity (k : Integrator) (qByM dt : spec_float) (r v : Vec3 spec_float) :
  B64.finite qByM = true -> finite_step dt = true -> finite_vec v = true ->
  same_numbers (snd (next E B g k qByM dt r v)) v /\
  finite_vec (snd (next E B g k qByM dt r v)) = true.
Proof.
  intros Hq Hdt Hv. unfold finite_step in Hdt.
  apply andb_true_iff in Hdt as [Hdt Hsixth]. apply andb_true_iff in Hdt as [Hdt Hhalf].
  destruct k; cbn [next euler_next rk4_next snd].
  - apply vadd_zeros_r; [exact Hv|]. apply zeros_vmuls; [|exact Hdt]. now apply a_zeros.
  - assert (Hk1 : forall r', zeros (a E B g qByM r' v)) by (intros r'; now apply a_zeros).
    assert (Hk2r : finite_vec (vadd v (vmuls (a E B g qByM r v) (fdiv dt (fofZ 2)))) = true).
    { apply vadd_zeros_r; [exact Hv|]. apply zeros_vmuls; [apply Hk1|exact Hhalf]. }
    assert (Hk3r : finite_vec
              (vadd v (vmuls (a E B g qByM (vadd r (vmuls v (fdiv dt (fofZ 2)))) v)
                         (fdiv dt (fofZ 2)))) = true).
    { apply vadd_zeros_r; [exact Hv|]. apply zeros_vmuls; [apply Hk1|exact Hhalf]. }
    apply vadd_zeros_r; [exact Hv|]. apply zeros_smulv; [exact Hsixth|].
    apply zeros_vadd; [|now apply a_zeros].
    apply zeros_vadd; [|apply zeros_smulv; [apply two_is_finite|now apply a_zeros]].
    apply zeros_vadd; [apply Hk1|].
    apply zeros_smulv; [apply two_is_finite|apply Hk1].
Qed.

Lemma steps_keep_velocity (k : Integrator) (dt : spec_float) (n : nat)
    (p : Particle spec_float) (r v : Vec3 spec_float) :
  fis_zero (value (m p)) = false ->
  B64.finite (fdiv (value (q p)) (value (m p))) = true ->
  finite_step dt = true ->
  last (rows (rs p)) = Some r -> last (rows (vs p)) = Some v ->
  finite_vec v = true ->
  exists p' v', steps E B g k dt n p = Ok p' /\
    last (rows (vs p')) = Some v' /\ same_numbers v' v.
Proof.
  intros Hm Hq Hdt. revert p r v Hm Hq.
  induction n as [|n IH]; intros p r v Hm Hq Hr Hv Hfin.
  - exists p, v. split; [reflexivity|]. split; [exact Hv|apply same_numbers_refl].
  - pose proof (update_Ok E B g k p dt r v Hr Hv Hm) as Hu.
    destruct (next_keeps_velocity k (fdiv (value (q p)) (value (m p))) dt r v Hq Hdt Hfin)
      as [Hsame Hfin1].
    match type of Hu with _ = Ok ?p1 =>
      destruct (IH p1 _ _ Hm Hq (last_np_append _ _) (last_np_append _ _) Hfin1)
        as (p' & v' & Hsteps & Hlast & Hsame')
    end.
    exists p', v'. cbn [steps]. rewrite Hu. cbn [mbind res_bind].
    split; [exact Hsteps|]. split; [exact Hlast|].
    eapply same_numbers_trans; eassumption.
Qed.
End NoField.


(** *** The run as specified *)

Lemma iterations_floor (t dt : Number spec_float) :
  match iterations t dt, floor_iterations t dt with
  | Ok n, Ok n' => seqZ 0 n = seqZ 0 n'
  | Raise e, Raise e' => e = e'
  | _, _ => False
  end.
Proof.
  unfold iterations, floor_iterations.
  destruct (truediv t dt) as [x|e]; [|reflexivity].
  exact (int_floor_same_range (value x)).
Qed.

(** C6, as the code has it.  Whatever its arguments, [main] ends as the
    specified run does, and leaves the particles as that run leaves them:
    the step count int(t/dt) makes the passes that floor(t/dt) makes.  With
    n the count, the calls made are those of the list taken n times over,
    one call per entry, in list order, up to the first call that raises,
    which ends the run with its exception.  When no call can raise, each
    particle object has received max(n, 0) steps for each time it occurs in
    the list. *)
Theorem main_steps_each_entry (s : State spec_float) (particles : list nat)
    (t dt : Number spec_float) (integrator : string) :
  same_heap (main E B g s particles t dt integrator)
            (run E B g s particles t dt (select integrator)) /\
  (forall n, iterations t dt = Ok n ->
     let calls := for_each (invoke E B g (select integrator) (value dt))
                    (concat (replicate (Z.to_nat n) particles)) s in
     heap (final (main E B g s particles t dt integrator)) = heap (final calls) /\
     forall e s', calls = Raised e s' ->
       exists s'', main E B g s particles t dt integrator = Raised e s'') /\
  forall n, iterations t dt = Ok n ->
    all_steppable (heap s) particles ->
    forall j p, heap s !! j = Some p ->
      exists p',
        steps E B g (select integrator) (value dt)
          (Z.to_nat n * count_occ Nat.eq_dec particles j) p = Ok p' /\
        heap (final (main E B g s particles t dt integrator)) !! j = Some p'.
Proof.
  split; [|split].
  - unfold main, run. pose proof (iterations_floor t dt) as Hn.
    destruct (iterations t dt) as [n|e], (floor_iterations t dt) as [n'|e'];
      try contradiction; [|subst e'; apply same_heap_refl].
    rewrite <- Hn. apply then_plot_same_heap.
    apply for_each_same_heap; [|reflexivity].
    intros i t1 t2 Ht. unfold timestep. apply for_each_same_heap.
    + intros ref u1 u2. apply invoke_same_heap.
    + now rewrite progress_heap.
  - intros n Hn calls.
    pose proof (passes_flat E B g (select integrator) (value dt) particles n
                  (seqZ 0 n) s s eq_refl) as Hflat.
    rewrite length_seqZ in Hflat. fold calls in Hflat.
    destruct Hflat as [Hend Hheap]. split.
    + rewrite main_final, Hn. exact Hheap.
    + intros e s' Hcalls. unfold main. rewrite Hn.
      rewrite Hcalls in Hend.
      destruct (for_each (timestep E B g (select integrator) (value dt) particles n)
                  (seqZ 0 n) s) as [s1|e1 s1]; cbn in Hend; [contradiction|].
      subst e1. now exists s1.
  - intros n Hn Hall j p Hj. rewrite main_final, Hn.
    destruct (passes_steps E B g (select integrator) (value dt) particles n
                (seqZ 0 n) s Hall) as (s' & Hrun & _ & _ & Hobj).
    rewrite Hrun. destruct (Hobj j p Hj) as (p' & Hsteps & Hp').
    rewrite length_seqZ in Hsteps. eauto.
Qed.

(** C7, as the code has it.  Constructing a particle of zero mass raises
    nothing.  When charge and mass are Python floats, each step attempted on
    the particle raises before anything is appended, so no run ever extends
    its histories, and a run of at least one pass whose list mentions it
    ends in an exception.  A run of no pass divides by no mass: it goes
    straight to plotting.  When charge or mass is a NumPy float64, nothing
    raises: charge/mass is an infinity or NaN and a step appends the rows
    computed from it. *)
Theorem zero_mass_raises_when_stepped (s : State spec_float) (particles : list nat)
    (t dt : Number spec_float) (integrator : string) (j : nat) (p : Particle spec_float) :
  heap s !! j = Some p ->
  fis_zero (value (m p)) = true ->
  Particle_init (q p) (m p) (rs p) (vs p) = Ok p /\
  (is_python (q p) && is_python (m p) = true ->
     (forall k dt', exists e, update E B g k p dt' = Raise e /\
        (rows (rs p) <> [] -> rows (vs p) <> [] -> e = ZeroDivisionError)) /\
     heap (final (main E B g s particles t dt integrator)) !! j = Some p /\
     (forall n, iterations t dt = Ok n -> 1 <= n -> In j particles ->
        exists e s', main E B g s particles t dt integrator = Raised e s')) /\
  (forall n, iterations t dt = Ok n -> n <= 0 ->
     main E B g s particles t dt integrator =
       reading s (plotResults (heap s) particles)) /\
  (is_python (q p) && is_python (m p) = false ->
     B64.finite (fdiv (value (q p)) (value (m p))) = false /\
     forall k dt' r_i v_i,
       last (rows (rs p)) = Some r_i -> last (rows (vs p)) = Some v_i ->
       update E B g k p dt' =
         Ok (mkParticle (q p) (m p)
               (np_append (rs p)
                  (fst (next E B g k (fdiv (value (q p)) (value (m p))) dt' r_i v_i)))
               (np_append (vs p)
                  (snd (next E B g k (fdiv (value (q p)) (value (m p))) dt' r_i v_i))))).
Proof.
  intros Hj Hm. split; [now destruct p|]. split; [|split].
  - intros Hpy. apply andb_true_iff in Hpy as [Hpq Hpm].
    split; [intros k dt'; now apply update_zero_mass|]. split.
    + apply (main_invariant E B g (fun h => h !! j = Some p)); [|exact Hj].
      intros k ref s0 _ Hs0. now apply invoke_zero_mass.
    + intros n Hn Hpos Hin. unfold main. rewrite Hn.
      rewrite seqZ_cons by lia. cbn [for_each]. unfold timestep at 1.
      destruct (pass_zero_mass_raises E B g (select integrator) (value dt) particles
                  (progress 0 n s) j p Hpq Hpm Hm) as (e & s' & Hraise);
        [now rewrite progress_heap|exact Hin|].
      rewrite Hraise. eauto.
  - intros n Hn Hle. unfold main. rewrite Hn.
    replace (seqZ 0 n) with (@nil Z); [reflexivity|].
    symmetry. apply length_zero_iff_nil. rewrite length_seqZ. lia.
  - intros Hnp. split; [now apply quotient_by_zero|].
    intros k dt' r_i v_i Hr Hv.
    apply (update_divides E B g k p dt' r_i v_i _ Hr Hv (truediv_numpy _ _ Hnp)).
Qed.
End Binary64Facts.

(** * Further properties of the step and of the driver *)

Section MoreStepFacts.
Context {F : Type} {SF : Scalar F}.
Variables E B g : Vec3 F -> Vec3 F.

(** X1.  Both integrators read the two last rows before they divide: on an empty
    position or velocity history the step raises IndexError, whatever the
    mass, zero included. *)
Theorem empty_history_raises_IndexError (k : Integrator) (p : Particle F) (dt : F) :
  rows (rs p) = [] \/ rows (vs p) = [] ->
  update E B g k p dt = Raise IndexError.
Proof.
  intros Hempty. rewrite update_unfold. unfold last_row.
  destruct Hempty as [-> | ->]; cbn; [reflexivity|].
  now destruct (last (rows (rs p))).
Qed.

(** X2.  Charge and mass enter a step through their quotient only: two particles
    of nonzero mass with the same quotient and the same last rows get the
    same position and velocity appended. *)
Theorem step_depends_on_ratio (k : Integrator) (dt : F) (p1 p2 : Particle F)
    (r_i v_i : Vec3 F) :
  fis_zero (value (m p1)) = false ->
  fis_zero (value (m p2)) = false ->
  fdiv (value (q p1)) (value (m p1)) = fdiv (value (q p2)) (value (m p2)) ->
  last (rows (rs p1)) = Some r_i -> last (rows (vs p1)) = Some v_i ->
  last (rows (rs p2)) = Some r_i -> last (rows (vs p2)) = Some v_i ->
  exists p1' p2' r v,
    update E B g k p1 dt = Ok p1' /\ update E B g k p2 dt = Ok p2' /\
    rs p1' = np_append (rs p1) r /\ vs p1' = np_append (vs p1) v /\
    rs p2' = np_append (rs p2) r /\ vs p2' = np_append (vs p2) v.
Proof.
  intros Hm1 Hm2 Hratio Hr1 Hv1 Hr2 Hv2.
  pose proof (update_Ok E B g k p1 dt r_i v_i Hr1 Hv1 Hm1) as Hu1.
  pose proof (update_Ok E B g k p2 dt r_i v_i Hr2 Hv2 Hm2) as Hu2.
  rewrite <- Hratio in Hu2.
  do 4 eexists. split; [exact Hu1|]. split; [exact Hu2|]. cbn. auto.
Qed.

(** Where the fields are the same at every position, the acceleration is. *)
Lemma a_uniform (e b gv : Vec3 F) (qByM : F) (r r' v v' : Vec3 F) :
  uniform E e -> uniform B b -> uniform g gv ->
  v = v' -> a E B g qByM r v = a E B g qByM r' v'.
Proof. intros HE HB Hg ->. unfold a. now rewrite !HE, !HB, !Hg. Qed.

Lemma next_velocity_uniform (e b gv : Vec3 F) (k : Integrator) (qByM dt : F)
    (r r' v : Vec3 F) :
  uniform E e -> uniform B b -> uniform g gv ->
  snd (next E B g k qByM dt r v) = snd (next E B g k qByM dt r' v).
Proof.
  intros HE HB Hg. destruct k; cbn [next euler_next rk4_next snd];
    repeat first [reflexivity | apply (a_uniform e b gv); [assumption..|] | f_equal].
Qed.

(** X3.  With fields that do not depend on position, as the script configures
    them, the velocities computed do not depend on where the particle is:
    two particles with the same charge, mass and velocity history, each
    with some position history, end n steps with the same velocity
    history, or raise the same exception. *)
Theorem velocity_ignores_position (e b gv : Vec3 F) (k : Integrator) (dt : F)
    (n : nat) (p1 p2 : Particle F) :
  uniform E e -> uniform B b -> uniform g gv ->
  q p1 = q p2 -> m p1 = m p2 -> vs p1 = vs p2 ->
  rows (rs p1) <> [] -> rows (rs p2) <> [] ->
  match steps E B g k dt n p1, steps E B g k dt n p2 with
  | Ok p1', Ok p2' => vs p1' = vs p2'
  | Raise e1, Raise e2 => e1 = e2
  | _, _ => False
  end.
Proof.
  intros HE HB Hg. revert p1 p2.
  induction n as [|n IH]; intros p1 p2 Hq Hm Hvs Hr1 Hr2; [exact Hvs|].
  cbn [steps]. rewrite !update_unfold.
  destruct (last_row_nonempty _ Hr1) as (r1 & _ & ->).
  destruct (last_row_nonempty _ Hr2) as (r2 & _ & ->).
  rewrite Hq, Hm, Hvs. cbn.
  destruct (last_row (vs p2)) as [vi|e0]; [|reflexivity]. cbn.
  destruct (truediv (q p2) (m p2)) as [qByM|e0]; [|reflexivity]. cbn.
  apply IH; cbn [q m rs vs]; try reflexivity.
  - now rewrite (next_velocity_uniform e b gv k (value qByM) dt r1 r2 vi HE HB Hg).
  - apply np_append_nonempty.
  - apply np_append_nonempty.
Qed.

End MoreStepFacts.

Section MoreRunFacts.
Context {F : Type} {SF : Scalar F} {OF : Ordered F} {PF : Pyplot F}.
Variables E B g : Vec3 F -> Vec3 F.

Lemma extends_refl (p : Particle F) : extends p p.
Proof.
  repeat split. exists [], []. now rewrite !app_nil_r.
Qed.

Lemma invoke_extends (k : Integrator) (dt : F) (ref : nat) (s : State F)
    (j : nat) (p p0 : Particle F) :
  heap s !! j = Some p0 -> extends p p0 ->
  exists p', heap (final (invoke E B g k dt ref s)) !! j = Some p' /\ extends p p'.
Proof.
  intros Hj (Hq0 & Hm0 & tr & tv & Hr0 & Hv0 & Hlen).
  destruct (invoke_frame E B g k dt ref s j p0 Hj) as (p' & Hp' & Hq & Hm & Hcase).
  exists p'. split; [exact Hp'|].
  split; [congruence|]. split; [congruence|].
  destruct Hcase as [[Hr Hv]|(_ & r & v & Hr & Hv)].
  - exists tr, tv. rewrite Hr, Hv. auto.
  - exists (tr ++ [r]), (tv ++ [v]).
    rewrite Hr, Hv, !rows_np_append, Hr0, Hv0, <- !app_assoc, !length_app, Hlen. auto.
Qed.

(** A run that completes has made its passes and plotted what they left. *)
Lemma main_Done (s s1 : State F) (particles : list nat) (t dt : Number F)
    (integrator : string) (n : Z) :
  iterations t dt = Ok n ->
  main E B g s particles t dt integrator = Done s1 ->
  for_each (timestep E B g (select integrator) (value dt) particles n) (seqZ 0 n) s =
    Done s1.
Proof.
  intros Hn. unfold main. rewrite Hn.
  destruct (for_each _ _ s) as [s'|e s']; [|discriminate].
  destruct (plotResults (heap s') particles); cbn; [|discriminate].
  now intros [= ->].
Qed.

Lemma multiples_in_range (n : Z) :
  List.filter (fun i => i mod 1000 =? 0) (seqZ 0 n) =
    (fun k => 1000 * k) <$> seqZ 0 ((n + 999) / 1000).
Proof.
  destruct (Z_le_gt_dec n 0) as [Hle|Hgt].
  - rewrite !seqZ_nil; [reflexivity| |exact Hle].
    apply Z.lt_succ_r, Z.div_lt_upper_bound; lia.
  - rewrite <- (Z2Nat.id n) by lia.
    induction (Z.to_nat n) as [|c IH]; [reflexivity|].
    rewrite seqZ_S, List.filter_app, IH, Z.add_0_l. cbn [List.filter].
    destruct (Z.of_nat c mod 1000 =? 0) eqn:Hmod.
    + apply Z.eqb_eq in Hmod.
      replace ((Z.of_nat (S c) + 999) / 1000) with ((Z.of_nat c + 999) / 1000 + 1)
        by (Z.div_mod_to_equations; lia).
      rewrite seqZ_app, fmap_app by (Z.div_mod_to_equations; lia).
      f_equal. rewrite seqZ_cons, seqZ_nil, Z.add_0_l by lia. cbn. f_equal.
      Z.div_mod_to_equations; lia.
    + apply Z.eqb_neq in Hmod. rewrite app_nil_r. do 2 f_equal.
      Z.div_mod_to_equations; lia.
Qed.

(** *** The properties *)

(** X5.  The integrator name is compared with ['RK4'] and nothing else: any
    other string, ['rk4'] or a misspelling included, runs exactly as
    ['euler'] does. *)
Theorem main_other_names_run_euler (s : State F) (particles : list nat)
    (t dt : Number F) (integrator : string) :
  integrator <> "RK4"%string ->
  main E B g s particles t dt integrator = main E B g s particles t dt "euler".
Proof.
  intros Hne. unfold main, select.
  apply String.eqb_neq in Hne. now rewrite Hne.
Qed.

(** X6.  A run, however it ends, leaves every object that the list does not
    name exactly as it was, and creates or deletes none. *)
Theorem main_leaves_unlisted (s : State F) (particles : list nat) (t dt : Number F)
    (integrator : string) (j : nat) :
  ~ In j particles ->
  heap (final (main E B g s particles t dt integrator)) !! j = heap s !! j /\
  length (heap (final (main E B g s particles t dt integrator))) = length (heap s).
Proof.
  intros Hnot.
  apply (main_invariant E B g
           (fun h => h !! j = heap s !! j /\ length h = length (heap s)));
    [|now split].
  intros k ref s0 Hin [Hj Hlen].
  destruct (invoke_other E B g k (value dt) ref j s0) as [Hj' Hlen']; [congruence|].
  split; congruence.
Qed.

(** X7.  A run, however it ends, only appends: every object keeps its charge
    and its mass; its histories, seen as float64, keep the rows they had at
    their indices (a float64 array bit for bit, an int64 array as NumPy
    converts it at the first step); and it has had as many rows appended
    to its positions as to its velocities. *)
Theorem main_only_appends (s : State F) (particles : list nat) (t dt : Number F)
    (integrator : string) (j : nat) (p : Particle F) :
  heap s !! j = Some p ->
  exists p', heap (final (main E B g s particles t dt integrator)) !! j = Some p' /\
    extends p p'.
Proof.
  intros Hj.
  apply (main_invariant E B g (fun h => exists p', h !! j = Some p' /\ extends p p')).
  - intros k ref s0 _ (p0 & Hp0 & Hext).
    now apply (invoke_extends k (value dt) ref s0 j p p0).
  - exists p. split; [exact Hj|apply extends_refl].
Qed.


(** X9.  Runs compose: after a completed run of n1 passes, a run of n2 passes
    ends as a single run of n1 + n2 passes from the start would have, with
    the same histories for every particle. *)
Theorem main_resumes (s s1 : State F) (particles : list nat) (t1 t2 t dt : Number F)
    (integrator : string) (n1 n2 : Z) :
  iterations t1 dt = Ok n1 ->
  iterations t2 dt = Ok n2 ->
  iterations t dt = Ok (n1 + n2) ->
  0 <= n1 -> 0 <= n2 ->
  main E B g s particles t1 dt integrator = Done s1 ->
  same_heap (main E B g s1 particles t2 dt integrator)
            (main E B g s particles t dt integrator).
Proof.
  intros H1 H2 H12 Hn1 Hn2 Hfirst.
  apply (main_Done s s1 particles t1 dt integrator n1 H1) in Hfirst.
  set (k := select integrator) in *.
  set (calls n := concat (replicate (Z.to_nat n) particles)).
  assert (Hflat : forall s0 n, same_heap
            (for_each (timestep E B g k (value dt) particles n) (seqZ 0 n) s0)
            (for_each (invoke E B g k (value dt)) (calls n) s0)).
  { intros s0 n. unfold calls. rewrite <- (length_seqZ 0 n).
    now apply passes_flat. }
  unfold main. rewrite H2, H12. fold k.
  apply then_plot_same_heap.
  apply (same_heap_trans _ _ _ (Hflat s1 n2)).
  apply same_heap_sym, (same_heap_trans _ _ _ (Hflat s (n1 + n2))).
  unfold calls. rewrite Z2Nat.inj_add, replicate_add, concat_app, for_each_app by lia.
  pose proof (Hflat s n1) as Hn. rewrite Hfirst in Hn. unfold calls in Hn.
  destruct (for_each (invoke E B g k (value dt))
              (concat (replicate (Z.to_nat n1) particles)) s)
    as [s1'|e s1']; destruct Hn as [Hend Hheap]; cbn in Hend, Hheap; [|contradiction].
  apply for_each_same_heap; [|now symmetry].
  intros ref t1' t2'. apply invoke_same_heap.
Qed.

Lemma first_point_empty (h : History F) : rows h = [] -> first_point h = Raise IndexError.
Proof. destruct h as [[|x l]|[|x l]]; cbn; intros Hh; try discriminate; reflexivity. Qed.

(** X11.  A run of no pass goes straight to plotting, and plotting a particle
    with no recorded position raises IndexError at [xs[0]], once the axes
    are made and the empty trajectory is drawn: the particles are left as
    they were and nothing is printed. *)
Theorem main_empty_history_raises_at_plot (s : State F) (ref : nat) (rest : list nat)
    (t dt : Number F) (integrator : string) (n : Z) (p : Particle F) (ax ax' : Axes) :
  iterations t dt = Ok n -> n <= 0 ->
  heap s !! ref = Some p ->
  rows (rs p) = [] ->
  plt_axes = Ok ax ->
  ax_plot ax (rs p) "black" (Some "trajectory"%string) = Ok ax' ->
  main E B g s (ref :: rest) t dt integrator = Raised IndexError s.
Proof.
  intros Hn Hle Hp Hempty Hax Hplot. unfold main. rewrite Hn.
  replace (seqZ 0 n) with (@nil Z)
    by (symmetry; apply length_zero_iff_nil; rewrite length_seqZ; lia).
  cbn [for_each]. unfold plotResults. rewrite Hax. cbn [mbind res_bind plot_particles].
  rewrite Hp. unfold plot_particle. cbn [labelled Nat.eqb].
  rewrite Hplot. cbn [mbind res_bind]. rewrite (first_point_empty _ Hempty).
  reflexivity.
Qed.
End MoreRunFacts.

Section MoreBinary64Facts.
Context {PF : Pyplot spec_float}.
Variables E B g : Vec3 spec_float -> Vec3 spec_float.

(** X4.  With [dt == 0], [main] raises at [n = int(t/dt)], before any particle
    is touched or any line printed: ZeroDivisionError when [t] and [dt] are
    Python floats; when either is a NumPy float64 the quotient is an
    infinity or NaN, and [int] raises OverflowError or ValueError. *)
Theorem main_zero_dt_raises (s : State spec_float) (particles : list nat)
    (t dt : Number spec_float) (integrator : string) :
  fis_zero (value dt) = true ->
  exists e, main E B g s particles t dt integrator = Raised e s /\
    (is_python t && is_python dt = true -> e = ZeroDivisionError) /\
    (is_python t && is_python dt = false -> e = OverflowError \/ e = ValueError).
Proof.
  intros Hdt. unfold main, iterations.
  destruct (is_python t && is_python dt) eqn:Hpy.
  - apply andb_true_iff in Hpy as [Hpt Hpdt].
    rewrite (truediv_python_zero t dt Hpt Hpdt Hdt). cbn.
    exists ZeroDivisionError.
    split; [reflexivity|]. split; [reflexivity|discriminate].
  - rewrite (truediv_numpy t dt Hpy). cbn [mbind res_bind value].
    destruct (int_of_quotient_by_zero (value t) (value dt) Hdt) as [Hint|Hint];
      cbn [fint B64.scalar]; rewrite Hint; eexists;
      (split; [reflexivity|]); (split; [discriminate|auto]).
Qed.
End MoreBinary64Facts.


(** ** The theorems at sample inputs *)

Import Sample.

Lemma updateEuler_appends_trapezoid_witness :
  fis_zero (value (m at_rest)) = false /\
  last (rows (rs at_rest)) = Some (vec 0 0 0) /\
  last (rows (vs at_rest)) = Some (vec 0 0 0) /\
  updateEuler E_x none none at_rest (num 1) =
    Ok (mkParticle (py 1) (py 1)
          (Float64 [vec 0 0 0; mkVec3 (fdiv (num 1) (num 2)) (num 0) (num 0)])
          (Float64 [vec 0 0 0; vec 1 0 0])) /\
  updateEuler E_x none none at_rest (num 1) <>
    Ok (mkParticle (py 1) (py 1)
          (Float64 [vec 0 0 0; vec 0 0 0]) (Float64 [vec 0 0 0; vec 1 0 0])).
Proof.
  assert (Hm : fis_zero (value (m at_rest)) = false) by reflexivity.
  assert (Hr : last (rows (rs at_rest)) = Some (vec 0 0 0)) by reflexivity.
  assert (Hv : last (rows (vs at_rest)) = Some (vec 0 0 0)) by reflexivity.
  destruct (updateEuler_appends_trapezoid E_x none none at_rest (num 1)
              (vec 0 0 0) (vec 0 0 0) Hm Hr Hv) as [Hstep Hnaive].
  split; [exact Hm|]. split; [exact Hr|]. split; [exact Hv|].
  split; [exact Hstep|]. apply Hnaive. vm_compute. discriminate.
Defined.

Lemma updateRK4_appends_stages_witness :
  fis_zero (value (m at_rest)) = false /\
  last (rows (rs at_rest)) = Some (vec 0 0 0) /\
  last (rows (vs at_rest)) = Some (vec 0 0 0) /\
  updateRK4 E_x none none at_rest (num 1) =
    Ok (mkParticle (py 1) (py 1)
          (Float64 [vec 0 0 0; mkVec3 (fdiv (num 1) (num 2)) (num 0) (num 0)])
          (Float64 [vec 0 0 0; vec 1 0 0])).
Proof.
  assert (Hm : fis_zero (value (m at_rest)) = false) by reflexivity.
  assert (Hr : last (rows (rs at_rest)) = Some (vec 0 0 0)) by reflexivity.
  assert (Hv : last (rows (vs at_rest)) = Some (vec 0 0 0)) by reflexivity.
  split; [exact Hm|]. split; [exact Hr|]. split; [exact Hv|].
  rewrite (updateRK4_appends_stages E_x none none at_rest (num 1)
             (vec 0 0 0) (vec 0 0 0) Hm Hr Hv).
  vm_compute. reflexivity.
Defined.

Lemma histories_grow_together_witness :
  fis_zero (value (m scripted)) = false /\
  rows (rs scripted) <> [] /\
  rows (vs scripted) <> [] /\
  exists p', steps none B_src none RK4 tenth 3 scripted = Ok p' /\
    length (rows (rs p')) = 4%nat /\ length (rows (vs p')) = 4%nat.
Proof.
  assert (Hm : fis_zero (value (m scripted)) = false) by reflexivity.
  assert (Hr : rows (rs scripted) <> []) by discriminate.
  assert (Hv : rows (vs scripted) <> []) by discriminate.
  split; [exact Hm|]. split; [exact Hr|]. split; [exact Hv|].
  destruct (histories_grow_together none B_src none RK4 tenth 3 scripted Hm Hr Hv)
    as (p' & Hsteps & _ & _ & _ & Hone).
  exists p'. split; [exact Hsteps|]. apply Hone; reflexivity.
Defined.

Lemma step_reads_last_rows_only_witness :
  q moving = q moving_later /\
  m moving = m moving_later /\
  last (rows (rs moving)) = last (rows (rs moving_later)) /\
  last (rows (vs moving)) = last (rows (vs moving_later)) /\
  exists p1' p2' r v,
    update none B_src none Euler moving tenth = Ok p1' /\
    update none B_src none Euler moving_later tenth = Ok p2' /\
    rs p1' = np_append (rs moving) r /\ vs p1' = np_append (vs moving) v /\
    rs p2' = np_append (rs moving_later) r /\ vs p2' = np_append (vs moving_later) v.
Proof.
  assert (Hq : q moving = q moving_later) by reflexivity.
  assert (Hm : m moving = m moving_later) by reflexivity.
  assert (Hr : last (rows (rs moving)) = last (rows (rs moving_later))) by reflexivity.
  assert (Hv : last (rows (vs moving)) = last (rows (vs moving_later))) by reflexivity.
  split; [exact Hq|]. split; [exact Hm|]. split; [exact Hr|]. split; [exact Hv|].
  pose proof (step_reads_last_rows_only none B_src none Euler tenth
                moving moving_later Hq Hm Hr Hv) as Hsame.
  destruct (update none B_src none Euler moving tenth) as [p1'|e1] eqn:H1;
    [|vm_compute in H1; discriminate H1].
  destruct (update none B_src none Euler moving_later tenth) as [p2'|e2] eqn:H2;
    [|vm_compute in H2; discriminate H2].
  destruct Hsame as (r & v & Hsame).
  exists p1', p2', r, v. split; [reflexivity|]. split; [reflexivity|]. exact Hsame.
Defined.


Lemma step_only_appends_witness :
  heap (mkState [scripted; at_rest] []) !! 0%nat = Some scripted /\
  exists p', heap (final (invoke none B_src none RK4 tenth 0
                            (mkState [scripted; at_rest] []))) !! 0%nat = Some p' /\
    q p' = q scripted /\ m p' = m scripted /\
    rows (rs p') !! 0%nat = Some (vec 0 0 0) /\ rows (vs p') !! 0%nat = Some (vec 1 0 0).
Proof.
  assert (Hj : heap (mkState [scripted; at_rest] []) !! 0%nat = Some scripted)
    by reflexivity.
  split; [exact Hj|].
  destruct (step_only_appends none B_src none RK4 tenth 0
              (mkState [scripted; at_rest] []) 0 scripted Hj)
    as (p' & Hp' & Hq & Hm & _ & [Hrs _] & [Hvs _]).
  exists p'. split; [exact Hp'|]. split; [exact Hq|]. split; [exact Hm|].
  split; [apply Hrs|apply Hvs]; reflexivity.
Defined.

Lemma main_steps_each_entry_witness :
  iterations (py 2) (py 1) = Ok 2 /\
  all_steppable (heap (mkState [moving; at_rest] [])) [1; 0; 1]%nat /\
  same_heap
    (main (PF := quiet) none B_src none (mkState [moving; at_rest] []) [1; 0; 1]%nat
       (py 2) (py 1) "RK4")
    (run (PF := quiet) none B_src none (mkState [moving; at_rest] []) [1; 0; 1]%nat
       (py 2) (py 1) RK4) /\
  exists p0 p1,
    heap (final (main (PF := quiet) none B_src none (mkState [moving; at_rest] [])
                   [1; 0; 1]%nat (py 2) (py 1) "RK4")) !! 0%nat = Some p0 /\
    steps none B_src none RK4 (num 1) 2 moving = Ok p0 /\
    heap (final (main (PF := quiet) none B_src none (mkState [moving; at_rest] [])
                   [1; 0; 1]%nat (py 2) (py 1) "RK4")) !! 1%nat = Some p1 /\
    steps none B_src none RK4 (num 1) 4 at_rest = Ok p1.
Proof.
  assert (Hn : iterations (py 2) (py 1) = Ok 2) by reflexivity.
  assert (Hall : all_steppable (heap (mkState [moving; at_rest] [])) [1; 0; 1]%nat).
  { intros ref [<-|[<-|[<-|[]]]].
    - exists at_rest. split; [reflexivity|]. split; [now eexists|]. split; discriminate.
    - exists moving. split; [reflexivity|]. split; [now eexists|]. split; discriminate.
    - exists at_rest. split; [reflexivity|]. split; [now eexists|]. split; discriminate. }
  split; [exact Hn|]. split; [exact Hall|].
  destruct (main_steps_each_entry (PF := quiet) none B_src none
              (mkState [moving; at_rest] []) [1; 0; 1]%nat (py 2) (py 1) "RK4")
    as (Hrun & _ & Hobj).
  split; [exact Hrun|].
  destruct (Hobj 2 Hn Hall 0%nat moving eq_refl) as (p0 & Hsteps0 & Hp0).
  destruct (Hobj 2 Hn Hall 1%nat at_rest eq_refl) as (p1 & Hsteps1 & Hp1).
  exists p0, p1. split; [exact Hp0|]. split; [exact Hsteps0|].
  split; [exact Hp1|exact Hsteps1].
Defined.

Lemma zero_mass_raises_when_stepped_witness :
  heap (mkState [moving; massless] []) !! 1%nat = Some massless /\
  fis_zero (value (m massless)) = true /\
  update none B_src none Euler massless tenth = Raise ZeroDivisionError /\
  heap (final (main (PF := quiet) none B_src none (mkState [moving; massless] [])
                 [0; 1]%nat (py 2) (py 1) "euler")) !! 1%nat = Some massless /\
  exists e s', main (PF := quiet) none B_src none (mkState [moving; massless] [])
                 [0; 1]%nat (py 2) (py 1) "euler" = Raised e s'.
Proof.
  assert (Hj : heap (mkState [moving; massless] []) !! 1%nat = Some massless)
    by reflexivity.
  assert (Hm : fis_zero (value (m massless)) = true) by reflexivity.
  split; [exact Hj|]. split; [exact Hm|].
  destruct (zero_mass_raises_when_stepped (PF := quiet) none B_src none
              (mkState [moving; massless] []) [0; 1]%nat (py 2) (py 1) "euler"
              1 massless Hj Hm)
    as (_ & Hpython & _ & _).
  destruct (Hpython eq_refl) as (Hstep & Hkeep & Hraise).
  split.
  - destruct (Hstep Euler tenth) as (e & He & Hzero).
    rewrite He. f_equal. apply Hzero; discriminate.
  - split; [exact Hkeep|].
    apply (Hraise 2); [reflexivity|lia|right; left; reflexivity].
Defined.

Lemma runs_are_reproducible_witness :
  Forall2 same_particle (heap (mkState [scripted; at_rest] []))
                        (heap (mkState [scripted; at_rest] [Progress 7 9])) /\
  select "euler" = select "Euler" /\
  Forall2 same_histories
    (heap (final (main (PF := quiet) none B_src none (mkState [scripted; at_rest] [])
                    [0; 1]%nat (py 2) (PyFloat tenth) "euler")))
    (heap (final (main (PF := quiet) none B_src none
                    (mkState [scripted; at_rest] [Progress 7 9])
                    [0; 1]%nat (py 2) (PyFloat tenth) "Euler"))).
Proof.
  assert (Hsame : Forall2 same_particle (heap (mkState [scripted; at_rest] []))
                    (heap (mkState [scripted; at_rest] [Progress 7 9]))).
  { cbn. repeat constructor. }
  assert (Hsel : select "euler" = select "Euler") by reflexivity.
  split; [exact Hsame|]. split; [exact Hsel|].
  exact (proj2 (runs_are_reproducible (PF := quiet) none B_src none _ _ [0; 1]%nat
                  (py 2) (PyFloat tenth) "euler" "Euler" Hsame Hsel)).
Defined.

(** ** Where the code departs from the specification's wording *)


(** C6.  With t = 1, dt = 1 and the list [moving; massless], dt is not zero
    and floor(t/dt) = 1, yet the second particle receives no step: the first
    is stepped, then the call on the second raises and ends the run.  With
    the list naming one object twice, that object receives two steps in the
    one pass.  And for t the largest double and dt the smallest, dt is not
    zero but t/dt is infinite: int raises and no particle is stepped. *)
Lemma not_every_particle_gets_n_steps :
  fis_zero (value (py 1)) = false /\
  floor_iterations (py 1) (py 1) = Ok 1 /\
  (exists p', update none B_src none Euler moving (num 1) = Ok p' /\
     main (PF := quiet) none B_src none (mkState [moving; massless] []) [0; 1]%nat
       (py 1) (py 1) "euler" =
       Raised ZeroDivisionError (mkState [p'; massless] [Progress 0 1])) /\
  (exists p1 p2, steps none B_src none Euler (num 1) 1 moving = Ok p1 /\
     steps none B_src none Euler (num 1) 2 moving = Ok p2 /\
     p1 <> p2 /\
     main (PF := quiet) none B_src none (mkState [moving] []) [0; 0]%nat
       (py 1) (py 1) "euler" = Done (mkState [p2] [Progress 0 1])) /\
  fis_zero smallest = false /\
  main (PF := quiet) none B_src none (mkState [moving] []) [0]%nat
    (PyFloat largest) (PyFloat smallest) "euler" =
    Raised OverflowError (mkState [moving] []).
Proof.
  split; [reflexivity|]. split; [reflexivity|]. split; [|split].
  - destruct (update none B_src none Euler moving (num 1)) as [p'|e] eqn:Hu;
      [|vm_compute in Hu; discriminate Hu].
    exists p'. split; [reflexivity|].
    vm_compute in Hu. injection Hu as <-. vm_compute. reflexivity.
  - destruct (steps none B_src none Euler (num 1) 1 moving) as [p1|e] eqn:H1;
      [|vm_compute in H1; discriminate H1].
    destruct (steps none B_src none Euler (num 1) 2 moving) as [p2|e] eqn:H2;
      [|vm_compute in H2; discriminate H2].
    exists p1, p2. split; [reflexivity|]. split; [reflexivity|].
    vm_compute in H1, H2. injection H1 as <-. injection H2 as <-.
    split; [discriminate|]. vm_compute. reflexivity.
  - split; [reflexivity|]. vm_compute. reflexivity.
Qed.

(** C7: a particle whose mass is the NumPy float64 zero is constructed
    without complaint, and an Euler step on it raises nothing: charge/mass
    is +inf and the rows appended are (nan, nan, inf).  With the Python float
    zero for mass and the particle second in the list, the first particle
    has been stepped by the time the division raises. *)
Lemma zero_mass_does_not_fail_fast :
  Particle_init (py 1) (np 0) (Float64 [vec 0 0 0]) (Float64 [vec 1 0 0]) =
    Ok massless_np /\
  fis_zero (value (m massless_np)) = true /\
  update none B_src none Euler massless_np (num 1) =
    Ok (mkParticle (py 1) (np 0)
          (Float64 [vec 0 0 0; mkVec3 S754_nan S754_nan (S754_infinity false)])
          (Float64 [vec 1 0 0; mkVec3 S754_nan S754_nan (S754_infinity false)])) /\
  fis_zero (value (m massless)) = true /\
  exists p', update none B_src none Euler moving (num 1) = Ok p' /\
    main (PF := quiet) none B_src none (mkState [moving; massless] []) [0; 1]%nat
      (py 1) (py 1) "euler" =
      Raised ZeroDivisionError (mkState [p'; massless] [Progress 0 1]).
Proof.
  split; [reflexivity|]. split; [reflexivity|]. split; [vm_compute; reflexivity|].
  split; [reflexivity|].
  destruct (update none B_src none Euler moving (num 1)) as [p'|e] eqn:Hu;
    [|vm_compute in Hu; discriminate Hu].
  exists p'. split; [reflexivity|].
  vm_compute in Hu. injection Hu as <-. vm_compute. reflexivity.
Qed.

(** C8: the int64 position array [[9007199254740993, 0, 0]], that is
    2^53 + 1.  After one Euler step the array is float64 and its row 0
    holds 9007199254740992: the recorded entry has changed. *)
Lemma int64_history_is_rewritten :
  first_point (rs far) = Ok (IntRow (mkVec3 9007199254740993 0 0)) /\
  exists p' x,
    update none B_src none Euler far (num 1) = Ok p' /\
    first_point (rs p') = Ok (FloatRow (mkVec3 x (num 0) (num 0))) /\
    fint x = Ok 9007199254740992.
Proof.
  split; [reflexivity|].
  destruct (update none B_src none Euler far (num 1)) as [p'|e] eqn:Hu;
    [|vm_compute in Hu; discriminate Hu].
  exists p', (S754_finite false 4503599627370496 1). split; [reflexivity|].
  vm_compute in Hu. injection Hu as <-. split; reflexivity.
Qed.

(** ** The further properties at sample inputs *)

Lemma empty_history_raises_IndexError_witness :
  (rows (rs unborn) = [] \/ rows (vs unborn) = []) /\
  fis_zero (value (m unborn)) = true /\
  update none B_src none RK4 unborn tenth = Raise IndexError.
Proof.
  assert (Hempty : rows (rs unborn) = [] \/ rows (vs unborn) = []) by (left; reflexivity).
  split; [exact Hempty|]. split; [reflexivity|].
  exact (empty_history_raises_IndexError none B_src none RK4 unborn tenth Hempty).
Defined.

Lemma step_depends_on_ratio_witness :
  fis_zero (value (m moving)) = false /\
  fis_zero (value (m doubled)) = false /\
  fdiv (value (q moving)) (value (m moving)) =
    fdiv (value (q doubled)) (value (m doubled)) /\
  q moving <> q doubled /\
  exists p1' p2' r v,
    update none B_src none RK4 moving tenth = Ok p1' /\
    update none B_src none RK4 doubled tenth = Ok p2' /\
    rs p1' = np_append (rs moving) r /\ vs p1' = np_append (vs moving) v /\
    rs p2' = np_append (rs doubled) r /\ vs p2' = np_append (vs doubled) v.
Proof.
  assert (Hm1 : fis_zero (value (m moving)) = false) by reflexivity.
  assert (Hm2 : fis_zero (value (m doubled)) = false) by reflexivity.
  assert (Hratio : fdiv (value (q moving)) (value (m moving)) =
                   fdiv (value (q doubled)) (value (m doubled)))
    by (vm_compute; reflexivity).
  split; [exact Hm1|]. split; [exact Hm2|]. split; [exact Hratio|].
  split; [vm_compute; discriminate|].
  exact (step_depends_on_ratio none B_src none RK4 tenth moving doubled
           (vec 0 0 0) (vec 1 0 0) Hm1 Hm2 Hratio eq_refl eq_refl eq_refl eq_refl).
Defined.

Lemma velocity_ignores_position_witness :
  uniform (@B_src spec_float _) (B_src (vec 0 0 0)) /\
  q moving = q elsewhere /\ m moving = m elsewhere /\ vs moving = vs elsewhere /\
  rows (rs moving) <> [] /\ rows (rs elsewhere) <> [] /\
  rs moving <> rs elsewhere /\
  exists p1' p2',
    steps none B_src none RK4 tenth 3 moving = Ok p1' /\
    steps none B_src none RK4 tenth 3 elsewhere = Ok p2' /\
    vs p1' = vs p2'.
Proof.
  assert (HB : uniform (@B_src spec_float _) (B_src (vec 0 0 0))) by (intros r; reflexivity).
  assert (Hnone : uniform none (vec 0 0 0)) by (intros r; reflexivity).
  assert (Hr1 : rows (rs moving) <> []) by discriminate.
  assert (Hr2 : rows (rs elsewhere) <> []) by discriminate.
  split; [exact HB|]. split; [reflexivity|]. split; [reflexivity|].
  split; [reflexivity|]. split; [exact Hr1|]. split; [exact Hr2|].
  split; [vm_compute; discriminate|].
  pose proof (velocity_ignores_position none B_src none (vec 0 0 0) (B_src (vec 0 0 0))
                (vec 0 0 0) RK4 tenth 3 moving elsewhere Hnone HB Hnone
                eq_refl eq_refl eq_refl Hr1 Hr2) as Hsame.
  destruct (steps none B_src none RK4 tenth 3 moving) as [p1'|e1] eqn:H1;
    [|vm_compute in H1; discriminate H1].
  destruct (steps none B_src none RK4 tenth 3 elsewhere) as [p2'|e2] eqn:H2;
    [|vm_compute in H2; discriminate H2].
  exists p1', p2'. split; [reflexivity|]. split; [reflexivity|]. exact Hsame.
Defined.

Lemma main_zero_dt_raises_witness :
  fis_zero (value (py 0)) = true /\
  main (PF := quiet) none B_src none (mkState [moving] []) [0]%nat (py 2) (py 0) "RK4" =
    Raised ZeroDivisionError (mkState [moving] []) /\
  fis_zero (value (np 0)) = true /\
  main (PF := quiet) none B_src none (mkState [moving] []) [0]%nat (py 2) (np 0) "RK4" =
    Raised OverflowError (mkState [moving] []).
Proof.
  assert (Hdt : fis_zero (value (py 0)) = true) by reflexivity.
  assert (Hnp : fis_zero (value (np 0)) = true) by reflexivity.
  split; [exact Hdt|].
  destruct (main_zero_dt_raises (PF := quiet) none B_src none (mkState [moving] [])
              [0]%nat (py 2) (py 0) "RK4" Hdt) as (e & Hrun & Hpy & _).
  split; [rewrite Hrun; f_equal; now apply Hpy|].
  split; [exact Hnp|].
  destruct (main_zero_dt_raises (PF := quiet) none B_src none (mkState [moving] [])
              [0]%nat (py 2) (np 0) "RK4" Hnp) as (e' & Hrun' & _ & _).
  rewrite Hrun'. vm_compute in Hrun'. now injection Hrun' as <-.
Defined.

Lemma main_other_names_run_euler_witness :
  "rk4"%string <> "RK4"%string /\
  main (PF := quiet) none B_src none (mkState [moving] []) [0]%nat (py 2) (py 1) "rk4" =
  main (PF := quiet) none B_src none (mkState [moving] []) [0]%nat (py 2) (py 1) "euler".
Proof.
  assert (Hne : "rk4"%string <> "RK4"%string) by discriminate.
  split; [exact Hne|].
  exact (main_other_names_run_euler (PF := quiet) none B_src none (mkState [moving] [])
           [0]%nat (py 2) (py 1) "rk4" Hne).
Defined.

Lemma main_leaves_unlisted_witness :
  ~ In 1%nat [0]%nat /\
  heap (final (main (PF := quiet) none B_src none (mkState [moving; massless] [])
                 [0]%nat (py 2) (py 1) "RK4")) !! 1%nat = Some massless.
Proof.
  assert (Hnot : ~ In 1%nat [0]%nat) by (intros [Habs|[]]; discriminate Habs).
  split; [exact Hnot|].
  exact (proj1 (main_leaves_unlisted (PF := quiet) none B_src none
                  (mkState [moving; massless] []) [0]%nat (py 2) (py 1) "RK4" 1 Hnot)).
Defined.

Lemma main_only_appends_witness :
  heap (mkState [scripted; massless] []) !! 0%nat = Some scripted /\
  exists p', heap (final (main (PF := quiet) none B_src none
                            (mkState [scripted; massless] [])
                            [0; 1]%nat (py 2) (py 1) "RK4")) !! 0%nat = Some p' /\
    extends scripted p'.
Proof.
  assert (Hj : heap (mkState [scripted; massless] []) !! 0%nat = Some scripted)
    by reflexivity.
  split; [exact Hj|].
  exact (main_only_appends (PF := quiet) none B_src none (mkState [scripted; massless] [])
           [0; 1]%nat (py 2) (py 1) "RK4" 0 scripted Hj).
Defined.


Lemma main_resumes_witness :
  iterations (py 1) (py 1) = Ok 1 /\
  iterations (py 2) (py 1) = Ok 2 /\
  iterations (py 3) (py 1) = Ok (1 + 2) /\
  exists s1,
    main (PF := quiet) none B_src none (mkState [moving] []) [0]%nat (py 1) (py 1) "RK4" =
      Done s1 /\
    same_heap
      (main (PF := quiet) none B_src none s1 [0]%nat (py 2) (py 1) "RK4")
      (main (PF := quiet) none B_src none (mkState [moving] []) [0]%nat (py 3) (py 1)
         "RK4").
Proof.
  assert (H1 : iterations (py 1) (py 1) = Ok 1) by reflexivity.
  assert (H2 : iterations (py 2) (py 1) = Ok 2) by reflexivity.
  assert (H3 : iterations (py 3) (py 1) = Ok (1 + 2)) by reflexivity.
  split; [exact H1|]. split; [exact H2|]. split; [exact H3|].
  destruct (main (PF := quiet) none B_src none (mkState [moving] []) [0]%nat (py 1)
              (py 1) "RK4") as [s1|e s1] eqn:Hfirst;
    [|vm_compute in Hfirst; discriminate Hfirst].
  exists s1. split; [reflexivity|].
  apply (main_resumes (PF := quiet) none B_src none (mkState [moving] []) s1 [0]%nat
           (py 1) (py 2) (py 3) (py 1) "RK4" 1 2 H1 H2 H3); [lia|lia|exact Hfirst].
Defined.


Lemma main_empty_history_raises_at_plot_witness :
  iterations (py 0) (py 1) = Ok 0 /\
  heap (mkState [unborn; moving] []) !! 0%nat = Some unborn /\
  rows (rs unborn) = [] /\
  main (PF := quiet) none B_src none (mkState [unborn; moving] []) [0; 1]%nat
    (py 0) (py 1) "RK4" = Raised IndexError (mkState [unborn; moving] []).
Proof.
  assert (Hn : iterations (py 0) (py 1) = Ok 0) by reflexivity.
  assert (Hp : heap (mkState [unborn; moving] []) !! 0%nat = Some unborn) by reflexivity.
  assert (Hempty : rows (rs unborn) = []) by reflexivity.
  split; [exact Hn|]. split; [exact Hp|]. split; [exact Hempty|].
  apply (main_empty_history_raises_at_plot (PF := quiet) none B_src none
           (mkState [unborn; moving] []) 0%nat [1%nat] (py 0) (py 1) "RK4" 0 unborn
           tt tt Hn); [lia|exact Hp|exact Hempty|reflexivity|reflexivity].
Defined.
